(** * A shallow embedding of [app.py]: the real-time ETH chart

    The program keeps a bounded frame of ticker rows ([market_data]) that a
    websocket callback ([on_message]) appends to, and a plotting function
    ([plot_graph]) that resamples the rows into 15-second candles, computes
    pivot/support/resistance levels and a cumulative VWAP column.

    Conventions of the embedding:
    - a pandas frame is the list of its rows, in index order;
    - a Python float is an exact rational, or one of the three special
      values [+inf], [-inf], [nan]; rounding and the sign of zero are not
      modelled: sums, products and quotients are exact, and an equality
      between computed values is one of exact arithmetic;
    - a timestamp is its integer number of nanoseconds since the epoch;
    - a Python call either returns a value or raises: [result]. *)

From Stdlib Require Import ZArith QArith Qabs Lqa Lia List Bool String Ascii.
From Stdlib Require Import Sorted Permutation.
Import ListNotations.

Set Implicit Arguments.
Set Warnings "-register-all,-abstract-large-number".

Local Open Scope Z_scope.

(** ** Python floats *)

Module PyFloat.

Inductive pyfloat : Type :=
| Fin (q : Q)
| PInf
| NInf
| NaN.

Definition isnan (x : pyfloat) : bool :=
  match x with NaN => true | _ => false end.

Definition notna (x : pyfloat) : bool := negb (isnan x).

Definition is_finite (x : pyfloat) : bool :=
  match x with Fin _ => true | _ => false end.

Definition Qis_zero (q : Q) : bool := Qeq_bool q 0.

Definition Qis_neg (q : Q) : bool := negb (Qle_bool 0 q).

Definition fneg (x : pyfloat) : pyfloat :=
  match x with
  | Fin q => Fin (- q)
  | PInf => NInf
  | NInf => PInf
  | NaN => NaN
  end.

Definition fadd (x y : pyfloat) : pyfloat :=
  match x, y with
  | NaN, _ | _, NaN => NaN
  | PInf, NInf | NInf, PInf => NaN
  | PInf, _ | _, PInf => PInf
  | NInf, _ | _, NInf => NInf
  | Fin a, Fin b => Fin (a + b)
  end.

Definition fsub (x y : pyfloat) : pyfloat := fadd x (fneg y).

(** The infinity with the sign of [neg] ([true] is negative). *)
Definition inf_of_sign (neg : bool) : pyfloat := if neg then NInf else PInf.

Definition inf_times (neg : bool) (q : Q) : pyfloat :=
  if Qis_zero q then NaN else inf_of_sign (xorb neg (Qis_neg q)).

Definition fmul (x y : pyfloat) : pyfloat :=
  match x, y with
  | NaN, _ | _, NaN => NaN
  | Fin a, Fin b => Fin (a * b)
  | PInf, Fin b | Fin b, PInf => inf_times false b
  | NInf, Fin b | Fin b, NInf => inf_times true b
  | PInf, PInf | NInf, NInf => PInf
  | PInf, NInf | NInf, PInf => NInf
  end.

(** numpy division: [0/0] is [nan], [a/0] is an infinity with the sign of
    [a], and nothing is raised. *)
Definition fdiv (x y : pyfloat) : pyfloat :=
  match x, y with
  | NaN, _ | _, NaN => NaN
  | Fin a, Fin b =>
      if Qis_zero b
      then if Qis_zero a then NaN else inf_of_sign (Qis_neg a)
      else Fin (a / b)
  | Fin _, (PInf | NInf) => Fin 0
  | PInf, Fin b => inf_of_sign (Qis_neg b)
  | NInf, Fin b => inf_of_sign (negb (Qis_neg b))
  | (PInf | NInf), (PInf | NInf) => NaN
  end.

(** [x <= y]; every comparison with [nan] is false. *)
Definition fle (x y : pyfloat) : bool :=
  match x, y with
  | NaN, _ | _, NaN => false
  | NInf, _ => true
  | _, PInf => true
  | Fin a, Fin b => Qle_bool a b
  | _, _ => false
  end.

Definition fmax (x y : pyfloat) : pyfloat := if fle x y then y else x.
Definition fmin (x y : pyfloat) : pyfloat := if fle x y then x else y.

(** Python truthiness of a float: [x != 0.0]. *)
Definition truthy (x : pyfloat) : bool :=
  match x with Fin q => negb (Qis_zero q) | _ => true end.

(** Equality of floats as numbers: rationals up to [Qeq], special values
    up to identity (so that [feq NaN NaN], unlike Python's [==]). *)
Definition feq (x y : pyfloat) : Prop :=
  match x, y with
  | Fin a, Fin b => (a == b)%Q
  | PInf, PInf | NInf, NInf | NaN, NaN => True
  | _, _ => False
  end.

Definition of_Z (z : Z) : pyfloat := Fin (inject_Z z).

(** The rational under a finite float ([0] for the special values). *)
Definition to_Q (x : pyfloat) : Q :=
  match x with Fin q => q | _ => 0%Q end.

End PyFloat.
Export PyFloat.

Declare Scope pyfloat_scope.
Delimit Scope pyfloat_scope with F.
Infix "+" := fadd : pyfloat_scope.
Infix "-" := fsub : pyfloat_scope.
Infix "*" := fmul : pyfloat_scope.
Infix "/" := fdiv : pyfloat_scope.
Infix "<=?" := fle : pyfloat_scope.
Infix "==" := feq (at level 70, no associativity) : pyfloat_scope.

(** ** Results of Python calls *)

Inductive exn : Type :=
| TypeError
| ValueError
| IndexError
| NameError
| AttributeError
| OverflowError.

Inductive result (A : Type) : Type :=
| Ok (a : A)
| Raise (e : exn).
Arguments Ok {A} a.
Arguments Raise {A} e.

Definition bind {A B : Type} (m : result A) (k : A -> result B) : result B :=
  match m with
  | Ok a => k a
  | Raise e => Raise e
  end.

Notation "x <- m ;; k" := (bind m (fun x => k))
  (at level 61, m at next level, right associativity).

Definition raises {A : Type} (m : result A) : bool :=
  match m with Ok _ => false | Raise _ => true end.

(** ** Values decoded from a feed message *)

(** What [json.loads] hands to [on_message]. A dict is the list of its items;
    [dict_get] reads the first item under a key. *)
Inductive json : Type :=
| JNull
| JBool (b : bool)
| JInt (z : Z)
| JFloat (x : pyfloat)
| JStr (s : string)
| JArr (items : list json)
| JObj (items : list (string * json)).

Module Py.

(** Truth value of an object in [if price and shares]. *)
Definition truthy (v : json) : bool :=
  match v with
  | JNull => false
  | JBool b => b
  | JInt z => negb (z =? 0)
  | JFloat x => PyFloat.truthy x
  | JStr s => negb (String.eqb s EmptyString)
  | JArr items => negb (Nat.eqb (List.length items) 0)
  | JObj items => negb (Nat.eqb (List.length items) 0)
  end.

Fixpoint dict_get (key : string) (items : list (string * json)) : json :=
  match items with
  | [] => JNull
  | (k, v) :: rest => if String.eqb key k then v else dict_get key rest
  end.

(** [data.get(key)]: [None] for a missing key; only a dict has [get]. *)
Definition get (data : json) (key : string) : result json :=
  match data with
  | JObj items => Ok (dict_get key items)
  | _ => Raise AttributeError
  end.

(** [v == s] for a string literal [s]. *)
Definition eq_str (v : json) (s : string) : bool :=
  match v with
  | JStr s' => String.eqb s' s
  | _ => false
  end.

(** The two library conversions [on_message] calls. [float_of_str] is
    [float] on a string ([None] where it raises [ValueError]).
    [to_datetime] is [pandas.to_datetime] on one value, read as
    nanoseconds since the epoch; a value it turns into no timestamp at all
    (a missing time) is outside the model. *)
Class Builtins : Type := {
  float_of_str : string -> option pyfloat;
  to_datetime : json -> result Z
}.

(** [float] on an integer: integers of magnitude [2^1024 - 2^970] and
    above round past the greatest double and raise [OverflowError]; the
    others are taken as they are (no rounding). *)
Definition float_of_int (z : Z) : result pyfloat :=
  if Z.abs z <? 2 ^ 1024 - 2 ^ 970 then Ok (of_Z z) else Raise OverflowError.

(** [float(v)]. *)
Definition py_float `{Builtins} (v : json) : result pyfloat :=
  match v with
  | JStr s =>
      match float_of_str s with
      | Some x => Ok x
      | None => Raise ValueError
      end
  | JInt z => float_of_int z
  | JFloat x => Ok x
  | JBool b => Ok (of_Z (if b then 1 else 0))
  | JNull | JArr _ | JObj _ => Raise TypeError
  end.

End Py.
Export Py.

(** ** The frame [market_data] *)

(** One row, with the columns
    [["time", "product_id", "price", "shares", "side"]]. *)
Record row : Type := Row {
  time : Z;
  product_id : json;
  price : pyfloat;
  shares : pyfloat;
  side : json
}.

Definition DataFrame : Type := list row.
Definition Series : Type := list pyfloat.

Definition MAX_ROWS : nat := 60000.
Definition period : nat := 15000.

Module Frame.

(** [df.empty]. *)
Definition empty {A : Type} (df : list A) : bool :=
  match df with [] => true | _ => false end.

(** [x.tail(n)]: the last [n] entries, all of them when there are fewer. *)
Definition tail {A : Type} (n : nat) (l : list A) : list A :=
  skipn (List.length l - n) l.

(** [data['price']] and [data['shares']]. *)
Definition col_price (df : DataFrame) : Series := map price df.
Definition col_shares (df : DataFrame) : Series := map shares df.

(** The entries a reduction with [skipna=True] looks at. *)
Definition dropna_values (s : Series) : Series := filter notna s.

Definition all_notna (s : Series) : Prop := Forall (fun x => notna x = true) s.

Definition all_finite (s : Series) : Prop :=
  Forall (fun x => is_finite x = true) s.

(** [s.max()] and [s.min()]: [nan] entries are skipped, and the result is
    [nan] when nothing is left. *)
Definition series_max (s : Series) : pyfloat :=
  match dropna_values s with
  | [] => NaN
  | x :: rest => fold_left fmax rest x
  end.

Definition series_min (s : Series) : pyfloat :=
  match dropna_values s with
  | [] => NaN
  | x :: rest => fold_left fmin rest x
  end.

(** [s.iloc[-1]]: the last entry as it is; [IndexError] on an empty
    series. *)
Definition iloc_last (s : Series) : result pyfloat :=
  match s with
  | [] => Raise IndexError
  | x :: rest => Ok (List.last rest x)
  end.

(** The group reductions ["first"], ["last"] and ["sum"]: the first and
    the last entry that is not [nan] ([nan] when there is none), and the
    sum of the entries that are not [nan] ([0.0] when there is none). *)
Definition agg_first (s : Series) : pyfloat :=
  match dropna_values s with
  | [] => NaN
  | x :: _ => x
  end.

Definition agg_last (s : Series) : pyfloat :=
  List.last (dropna_values s) NaN.

Definition agg_sum (s : Series) : pyfloat :=
  fold_left fadd (dropna_values s) (Fin 0).

End Frame.

(** ** [CoinbaseWebSocket.on_message] *)

Module Ingest.
Import Frame.

Section WithBuiltins.
Context `{Builtins}.

(** Lines 39-53: the row built from a decoded message, [None] when the
    message is skipped. The dict display evaluates [pd.to_datetime(time)],
    [float(price)], [float(shares)] in that order. *)
Definition new_row (data : json) : result (option row) :=
  ty <- get data "type" ;;
  if eq_str ty "ticker" then
    t <- get data "time" ;;
    pid <- get data "product_id" ;;
    sd <- get data "side" ;;
    p <- get data "price" ;;
    sh <- get data "last_size" ;;
    if Py.truthy p && Py.truthy sh then
      t' <- to_datetime t ;;
      p' <- py_float p ;;
      sh' <- py_float sh ;;
      Ok (Some (Row t' pid p' sh' sd))
    else Ok None
  else Ok None.

(** Lines 54-60: append one row, then keep the last [cap] rows. *)
Definition store (cap : nat) (market_data : DataFrame) (r : row) : DataFrame :=
  let market_data' := market_data ++ [r] in
  if (cap <? List.length market_data')%nat
  then tail cap market_data'
  else market_data'.

(** The callback as a step on the global frame: what the call does (returns
    or raises) and the frame it leaves. *)
Definition on_message_with (cap : nat) (data : json) (market_data : DataFrame)
  : result unit * DataFrame :=
  match new_row data with
  | Ok (Some r) => (Ok tt, store cap market_data r)
  | Ok None => (Ok tt, market_data)
  | Raise e => (Raise e, market_data)
  end.

Definition on_message : json -> DataFrame -> result unit * DataFrame :=
  on_message_with MAX_ROWS.

(** [float] refuses the value of a field. A missing field reads as [None],
    which it refuses too. *)
Definition malformed (v : json) : Prop := raises (py_float v) = true.

(** The rows a run of messages asks to append, in arrival order: one for
    every message that gets as far as line 54. *)
Definition admitted (msgs : list json) : list row :=
  flat_map (fun data =>
              match new_row data with
              | Ok (Some r) => [r]
              | _ => []
              end) msgs.

(** The frame after a run of messages; a callback that raised has left the
    frame as it was, and the next message is delivered all the same. *)
Definition feed (cap : nat) (msgs : list json) (market_data : DataFrame)
  : DataFrame :=
  fold_left (fun md data => snd (on_message_with cap data md)) msgs market_data.

End WithBuiltins.

(** Appending rows one by one. *)
Definition store_all (cap : nat) (market_data : DataFrame) (rows : list row)
  : DataFrame :=
  fold_left (store cap) rows market_data.

End Ingest.

(** ** Resampling into 15-second candles (lines 121-132) *)

(** One row of [ohlc_data]: the left edge of its bucket and the five
    aggregated columns. *)
Record candle : Type := Candle {
  c_time : Z;
  c_open : pyfloat;
  c_high : pyfloat;
  c_low : pyfloat;
  c_close : pyfloat;
  c_volume : pyfloat
}.

Module Resample.
Import Frame.

(** The width of ["15S"] in nanoseconds. *)
Definition BUCKET_NS : Z := 15 * 1000000000.

(** Bins are closed on the left and start at midnight of the first day;
    a day is a whole number of 15-second steps from the epoch, so the bin
    of a timestamp is its floored quotient by the width. *)
Definition bucket_of (t : Z) : Z := t / BUCKET_NS.

Definition in_bucket (k : Z) (r : row) : bool := bucket_of (time r) =? k.

(** [resample] groups on the time index after a stable sort of the rows
    (a time grouper always sorts, with a merge sort). A stable sort has
    one possible result; this one inserts from the right. *)
Fixpoint insert_by_time (r : row) (l : DataFrame) : DataFrame :=
  match l with
  | [] => [r]
  | x :: l' =>
      if time r <=? time x then r :: l else x :: insert_by_time r l'
  end.

Definition sort_by_time (df : DataFrame) : DataFrame :=
  fold_right insert_by_time [] df.

Definition by_time (r r' : row) : Prop := time r <= time r'.

(** Every bin from the one of the first timestamp to the one of the last,
    with or without rows. *)
Definition bins (sorted : DataFrame) : list Z :=
  match sorted with
  | [] => []
  | r :: rest =>
      let k0 := bucket_of (time r) in
      let k1 := bucket_of (time (List.last rest r)) in
      map (fun i => k0 + Z.of_nat i) (seq 0 (Z.to_nat (k1 - k0 + 1)))
  end.

(** [.agg({"price": ["first", "max", "min", "last"], "shares": "sum"})] on
    the rows of one bin, under the column names of line 131. *)
Definition agg_bin (sorted : DataFrame) (k : Z) : candle :=
  let g := filter (in_bucket k) sorted in
  {| c_time := k * BUCKET_NS;
     c_open := agg_first (col_price g);
     c_high := series_max (col_price g);
     c_low := series_min (col_price g);
     c_close := agg_last (col_price g);
     c_volume := agg_sum (col_shares g) |}.

Definition resample_agg (market_data : DataFrame) : list candle :=
  let sorted := sort_by_time market_data in
  map (agg_bin sorted) (bins sorted).

(** [ohlc_data.dropna()]: a row with [nan] in any column goes. *)
Definition complete (c : candle) : bool :=
  notna (c_open c) && notna (c_high c) && notna (c_low c)
  && notna (c_close c) && notna (c_volume c).

Definition dropna (ohlc : list candle) : list candle := filter complete ohlc.

(** Lines 121-132 together. *)
Definition ohlc_data (market_data : DataFrame) : list candle :=
  dropna (resample_agg market_data).

(** [date2num] of line 136: days since the epoch. *)
Definition date2num (t : Z) : pyfloat :=
  (Fin (inject_Z t) / Fin (inject_Z (86400 * 1000000000)))%F.

End Resample.

(** ** Pivot, resistance and support (lines 82-100) *)

Module Indicators.
Import Frame.

Definition calculate_pivot (data : DataFrame) (period : nat) : result pyfloat :=
  let w := tail period (col_price data) in
  l <- iloc_last w ;;
  Ok ((series_max w + series_min w + l) / Fin 3)%F.

Definition calculate_resistance1 (pivot : pyfloat) (data : DataFrame)
  (period : nat) : pyfloat :=
  (pivot * Fin 2 - series_min (tail period (col_price data)))%F.

Definition calculate_resistance2 (pivot : pyfloat) (data : DataFrame)
  (period : nat) : pyfloat :=
  (pivot + (series_max (tail period (col_price data))
            - series_min (tail period (col_price data))))%F.

Definition calculate_support1 (pivot : pyfloat) (data : DataFrame)
  (period : nat) : pyfloat :=
  (pivot * Fin 2 - series_max (tail period (col_price data)))%F.

Definition calculate_support2 (pivot : pyfloat) (data : DataFrame)
  (period : nat) : pyfloat :=
  (pivot - (series_max (tail period (col_price data))
            - series_min (tail period (col_price data))))%F.

End Indicators.

(** ** The VWAP column (lines 144-146) *)

Module Vwap.

(** [Series.cumsum()]: [nan] entries count as zero in the running sum and
    are put back as [nan] in the result. *)
Definition fillna0 (x : pyfloat) : pyfloat := if isnan x then Fin 0 else x.

Fixpoint running (acc : pyfloat) (s : Series) : Series :=
  match s with
  | [] => []
  | x :: s' => (acc + x)%F :: running (acc + x)%F s'
  end.

Definition np_cumsum (s : Series) : Series :=
  match s with
  | [] => []
  | x :: s' => x :: running x s'
  end.

Fixpoint zip_with {A B C : Type} (f : A -> B -> C) (l : list A) (l' : list B)
  : list C :=
  match l, l' with
  | x :: t, y :: t' => f x y :: zip_with f t t'
  | _, _ => []
  end.

Definition cumsum (s : Series) : Series :=
  zip_with (fun x c => if isnan x then NaN else c) s (np_cumsum (map fillna0 s)).

Definition cumulative_price_volume (ohlc : list candle) : Series :=
  cumsum (zip_with fmul (map c_close ohlc) (map c_volume ohlc)).

Definition cumulative_volume (ohlc : list candle) : Series :=
  cumsum (map c_volume ohlc).

Definition VWAP (ohlc : list candle) : Series :=
  zip_with fdiv (cumulative_price_volume ohlc) (cumulative_volume ohlc).

End Vwap.

(** ** [plot_graph] (lines 116-181) *)

Module Plot.
Import Frame Resample Indicators Vwap.

(** *** Calls of the module's functions

    The five indicator functions are plain [def]s whose parameters have no
    default. A call binds its positional arguments to the parameters one
    to one and raises [TypeError] when their numbers differ. *)

Inductive pyarg : Type :=
| AFloat (x : pyfloat)
| AFrame (df : DataFrame)
| AInt (n : nat).

Record pydef : Type := Def {
  params : list string;
  body : list pyarg -> result pyfloat
}.

Definition call (f : pydef) (args : list pyarg) : result pyfloat :=
  if Nat.eqb (List.length args) (List.length (params f))
  then body f args
  else Raise TypeError.

Definition def_calculate_pivot : pydef :=
  Def ["data"; "period"]%string
      (fun args =>
         match args with
         | [AFrame data; AInt p] => calculate_pivot data p
         | _ => Raise TypeError
         end).

(** The four functions of the shape [def f(pivot, data, period)]. *)
Definition def_level (f : pyfloat -> DataFrame -> nat -> pyfloat) : pydef :=
  Def ["pivot"; "data"; "period"]%string
      (fun args =>
         match args with
         | [AFloat pivot; AFrame data; AInt p] => Ok (f pivot data p)
         | _ => Raise TypeError
         end).

Definition def_calculate_resistance1 : pydef := def_level calculate_resistance1.
Definition def_calculate_resistance2 : pydef := def_level calculate_resistance2.
Definition def_calculate_support1 : pydef := def_level calculate_support1.
Definition def_calculate_support2 : pydef := def_level calculate_support2.

(** *** Names

    The names bound at module level and the names [plot_graph] assigns;
    reading any other name that is not a builtin raises [NameError]. *)
Definition module_names : list string :=
  ["st"; "json"; "websocket"; "pd"; "plt"; "FuncAnimation";
   "candlestick_ohlc"; "date2num"; "datetime"; "Thread";
   "COINBASE_WS_URL"; "product_ids"; "MAX_ROWS"; "period"; "columns";
   "market_data"; "CoinbaseWebSocket"; "calculate_pivot";
   "calculate_resistance1"; "calculate_resistance2"; "calculate_support1";
   "calculate_support2"; "chart_placeholder"; "start_websocket";
   "plot_graph"; "main"]%string.

Definition plot_graph_locals : list string :=
  ["ohlc_data"; "pivot"; "r1"; "s1"; "r2"; "s2"; "fig"; "ax"]%string.

Definition lookup_name (name : string) : result unit :=
  if existsb (String.eqb name) (plot_graph_locals ++ module_names)
  then Ok tt
  else Raise NameError.

(** *** What reaches the placeholder *)

Record levels : Type := Levels {
  lv_pivot : pyfloat;
  lv_r1 : pyfloat;
  lv_s1 : pyfloat;
  lv_r2 : pyfloat;
  lv_s2 : pyfloat
}.

Record chart : Type := Chart {
  ch_times : Series;
  ch_candles : list candle;
  ch_levels : levels;
  ch_vwap : Series
}.

(** Lines 149-181: the candlesticks and the five horizontal lines go on
    [ax], the VWAP line on [ax1], and the figure is handed to the
    placeholder last. *)
Definition draw (ohlc : list candle) (lv : levels) (vwap : Series)
  : result chart :=
  _ <- lookup_name "ax" ;;
  _ <- lookup_name "ax1" ;;
  Ok (Chart (map (fun c => date2num (c_time c)) ohlc) ohlc lv vwap).

(** The whole function on the global frame: [Ok None] when it returns
    without drawing. *)
Definition plot_graph (market_data : DataFrame) : result (option chart) :=
  if negb (empty market_data) then
    let ohlc := ohlc_data market_data in
    if negb (empty ohlc) then
      pivot <- call def_calculate_pivot [AFrame market_data] ;;
      r1 <- call def_calculate_resistance1 [AFloat pivot; AFrame market_data] ;;
      s1 <- call def_calculate_support1 [AFloat pivot; AFrame market_data] ;;
      r2 <- call def_calculate_resistance2 [AFloat pivot; AFrame market_data] ;;
      s2 <- call def_calculate_support2 [AFloat pivot; AFrame market_data] ;;
      ch <- draw ohlc (Levels pivot r1 s1 r2 s2) (VWAP ohlc) ;;
      Ok (Some ch)
    else Ok None
  else Ok None.

(** The snapshot a caller of the pull cycle sees: the candles and the
    levels on the chart, none when nothing was drawn. *)
Definition snapshot_candles (out : option chart) : list candle :=
  match out with
  | Some ch => ch_candles ch
  | None => []
  end.

Definition snapshot_indicators (out : option chart) : option levels :=
  option_map ch_levels out.

End Plot.

(** ** The candle of the specification

    What the specification asks of the candle of one bucket, in its own
    words: the rows whose time falls in [[start, start + width)], the
    earliest and the latest of them (ties go by arrival order), the
    greatest and the least price, the sum of the sizes. *)

Module CandleSpec.
Import Resample.

(** A tick as the specification has it: price and size are numbers. *)
Definition numeric_row (r : row) : bool :=
  is_finite (price r) && is_finite (shares r).

Definition numeric (df : DataFrame) : Prop :=
  Forall (fun r => numeric_row r = true) df.

Definition in_interval (start : Z) (r : row) : bool :=
  (start <=? time r) && (time r <? start + BUCKET_NS).

(** The rows of a bucket, in arrival order. *)
Definition members (start : Z) (df : DataFrame) : DataFrame :=
  filter (in_interval start) df.

(** [e] is the first row of [g] among those with the least time. *)
Definition earliest (g : DataFrame) (e : row) : Prop :=
  exists pre post, g = pre ++ e :: post
    /\ (forall r, In r pre -> time e < time r)
    /\ (forall r, In r post -> time e <= time r).

(** [e] is the last row of [g] among those with the greatest time. *)
Definition latest (g : DataFrame) (e : row) : Prop :=
  exists pre post, g = pre ++ e :: post
    /\ (forall r, In r pre -> time r <= time e)
    /\ (forall r, In r post -> time r < time e).

Definition is_max (m : pyfloat) (s : Series) : Prop :=
  In m s /\ forall y, In y s -> fle y m = true.

Definition is_min (m : pyfloat) (s : Series) : Prop :=
  In m s /\ forall y, In y s -> fle m y = true.

Definition sum_sizes (g : DataFrame) : pyfloat :=
  fold_left fadd (map shares g) (Fin 0).

Definition candle_of (df : DataFrame) (c : candle) : Prop :=
  let g := members (c_time c) df in
  g <> []
  /\ (exists e, earliest g e /\ c_open c = price e)
  /\ (exists e, latest g e /\ c_close c = price e)
  /\ is_max (c_high c) (map price g)
  /\ is_min (c_low c) (map price g)
  /\ (c_volume c == sum_sizes g)%F.

(** The left edges of the candles go up by at least one width: the
    buckets do not overlap and come in time order. *)
Definition apart (c c' : candle) : Prop := c_time c + BUCKET_NS <= c_time c'.

(** High, low, open and close of one candle are consistent. *)
Definition consistent (c : candle) : Prop :=
  fle (c_open c) (c_high c) = true
  /\ fle (c_close c) (c_high c) = true
  /\ fle (c_low c) (c_open c) = true
  /\ fle (c_low c) (c_close c) = true.

End CandleSpec.

(** ** The levels of the specification

    The five formulas over a window of prices, from its greatest price
    [hi], its least price [lo] and its last price [lastp]. *)

Module LevelSpec.
Local Open Scope Q_scope.

Definition pivot_of (hi lo lastp : Q) : Q := (hi + lo + lastp) / 3.
Definition resistance1_of (pivot lo : Q) : Q := 2 * pivot - lo.
Definition support1_of (pivot hi : Q) : Q := 2 * pivot - hi.
Definition resistance2_of (pivot hi lo : Q) : Q := pivot + (hi - lo).
Definition support2_of (pivot hi lo : Q) : Q := pivot - (hi - lo).

(** [x] is a number within [tol] of [q]. *)
Definition within_abs (tol : Q) (x : pyfloat) (q : Q) : Prop :=
  match x with
  | Fin a => Qabs (a - q) <= tol
  | _ => False
  end.

End LevelSpec.

(** ** The VWAP of the specification

    Two further readings of the VWAP series, in the words of the
    specification rather than of the pandas code: the quotient of the two
    totals taken from scratch over the candles so far, and the same
    quotient kept up to date by two running accumulators. *)

Module VwapSpec.

Definition total (s : Series) : pyfloat := fold_left fadd s (Fin 0).

Definition price_volume (c : candle) : pyfloat := (c_close c * c_volume c)%F.

Definition vwap_from_scratch (ohlc : list candle) : pyfloat :=
  (total (map price_volume ohlc) / total (map c_volume ohlc))%F.

(** The value at index [i]: from scratch over the candles [0..i]. *)
Definition vwap_at (ohlc : list candle) (i : nat) : pyfloat :=
  vwap_from_scratch (firstn (S i) ohlc).

Record accumulators : Type := Acc {
  sum_pv : pyfloat;
  sum_v : pyfloat
}.

Definition acc_init : accumulators := Acc (Fin 0) (Fin 0).

Definition acc_step (a : accumulators) (c : candle) : accumulators :=
  Acc (sum_pv a + price_volume c)%F (sum_v a + c_volume c)%F.

Definition acc_value (a : accumulators) : pyfloat := (sum_pv a / sum_v a)%F.

Fixpoint vwap_incremental_from (a : accumulators) (ohlc : list candle)
  : Series :=
  match ohlc with
  | [] => []
  | c :: rest =>
      let a' := acc_step a c in
      acc_value a' :: vwap_incremental_from a' rest
  end.

Definition vwap_incremental (ohlc : list candle) : Series :=
  vwap_incremental_from acc_init ohlc.

(** Candles whose close and volume are numbers. *)
Definition finite_candle (c : candle) : bool :=
  is_finite (c_close c) && is_finite (c_volume c).

Definition finite_candles (ohlc : list candle) : Prop :=
  Forall (fun c => finite_candle c = true) ohlc.

(** The reading of the guard: where the cumulative volume is zero the
    series has no VWAP entry. *)
Definition absent_at_zero_volume (ohlc : list candle) : Prop :=
  forall i cv,
    nth_error (Vwap.cumulative_volume ohlc) i = Some cv ->
    (cv == Fin 0)%F ->
    nth_error (Vwap.VWAP ohlc) i = None.

(** [x] is within the relative tolerance [tol] of [y]. *)
Definition within_rel (tol : Q) (x y : pyfloat) : Prop :=
  match x, y with
  | Fin a, Fin b => (Qabs (a - b) <= tol * Qabs b)%Q
  | _, _ => (x == y)%F
  end.

End VwapSpec.

(** ** Concrete conversions for the examples

    [float] on plain decimal literals ([12], [-3.50]) and on [nan], [inf],
    [-inf], and [to_datetime] on integers (nanoseconds since the epoch).
    The theorems hold for every [Builtins]; this instance is what the
    examples run with. *)

Module Examples.

Definition digit_of (c : ascii) : option Z :=
  let n := Z.of_nat (nat_of_ascii c) - 48 in
  if (0 <=? n) && (n <=? 9) then Some n else None.

(** Digits with at most one point: the digits read as an integer, and the
    number of digits after the point. *)
Fixpoint scan (s : string) (acc : Z) (frac : option nat) (seen : bool)
  : option (Z * nat) :=
  match s with
  | EmptyString =>
      if seen then Some (acc, match frac with Some n => n | None => O end)
      else None
  | String c s' =>
      if Ascii.eqb c "."%char then
        match frac with
        | Some _ => None
        | None => scan s' acc (Some O) seen
        end
      else
        match digit_of c with
        | Some d => scan s' (10 * acc + d) (option_map S frac) true
        | None => None
        end
  end.

Definition unsigned_of_str (s : string) : option pyfloat :=
  if String.eqb s "nan" then Some NaN
  else if String.eqb s "inf" then Some PInf
  else match scan s 0 None false with
       | Some (n, k) => Some (Fin (n # Z.to_pos (10 ^ Z.of_nat k)))
       | None => None
       end.

Definition decimal_of_str (s : string) : option pyfloat :=
  match s with
  | String "-"%char s' => option_map fneg (unsigned_of_str s')
  | _ => unsigned_of_str s
  end.

Definition epoch_ns (v : json) : result Z :=
  match v with
  | JInt z => Ok z
  | JStr _ => Raise ValueError
  | _ => Raise TypeError
  end.

Definition builtins : Builtins :=
  {| float_of_str := decimal_of_str; to_datetime := epoch_ns |}.

(** A ticker message whose price is not a number. *)
Definition bad_price_items : list (string * json) :=
  [("type", JStr "ticker"); ("time", JInt 0);
   ("price", JStr "abc"); ("last_size", JStr "1")]%string.

Definition bad_price_message : json := JObj bad_price_items.

(** A ticker message whose price is the text [nan]. *)
Definition nan_price_items : list (string * json) :=
  [("type", JStr "ticker"); ("time", JInt 0);
   ("price", JStr "nan"); ("last_size", JStr "1")]%string.

Definition nan_price_message : json := JObj nan_price_items.

(** A row with nothing but a time, a price and a size. *)
Definition tick (t : Z) (p s : Q) : row := Row t JNull (Fin p) (Fin s) JNull.

(** Three rows with the prices 10, 20 and 30. *)
Definition three_prices : DataFrame := [tick 0 10 1; tick 1 20 1; tick 2 30 1].

(** Five rows in three buckets, one bucket between them without rows; two
    rows arrive out of time order. *)
Definition five_ticks : DataFrame :=
  [tick 0 10 1; tick 1000000000 20 2; tick 46000000000 5 1;
   tick 16000000000 7 3; tick 14000000000 8 1].

(** Two rows with the same price. *)
Definition flat_prices : DataFrame := [tick 0 10 1; tick 1 10 2].

(** One row of size zero. *)
Definition zero_size : DataFrame := [tick 0 10 0].

(** Twenty thousand rows, one per nanosecond. *)
Definition scenario_rows : list row :=
  map (fun i => tick (Z.of_nat i) 1 1) (seq 0 20000).

End Examples.

(** ** More frames and messages for the examples *)

Module MoreExamples.

(** A ticker message that is stored. *)
Definition good_items : list (string * json) :=
  [("type", JStr "ticker"); ("time", JInt 0); ("product_id", JStr "ETH-USD");
   ("price", JStr "3123.45"); ("last_size", JStr "0.5");
   ("side", JStr "buy")]%string.

Definition good_message : json := JObj good_items.

(** [Examples.five_ticks] in time order. *)
Definition five_ticks_in_order : DataFrame :=
  [Examples.tick 0 10 1; Examples.tick 1000000000 20 2;
   Examples.tick 14000000000 8 1; Examples.tick 16000000000 7 3;
   Examples.tick 46000000000 5 1].

End MoreExamples.

(** * Properties *)

Import Frame Resample Indicators Vwap Plot Ingest Examples.
Import CandleSpec LevelSpec VwapSpec.

(** ** Floats *)

Section FloatFacts.
Implicit Types x y z : pyfloat.

Lemma feq_refl x : (x == x)%F.
Proof. destruct x; simpl; auto. reflexivity. Qed.

Lemma feq_sym x y : (x == y)%F -> (y == x)%F.
Proof. destruct x, y; simpl; auto. intros E. symmetry. exact E. Qed.

Lemma feq_trans x y z : (x == y)%F -> (y == z)%F -> (x == z)%F.
Proof.
  destruct x, y, z; simpl; auto; try contradiction.
  intros E1 E2. rewrite E1. exact E2.
Qed.

Lemma Qle_bool_total (a b : Q) : Qle_bool a b = false -> Qle_bool b a = true.
Proof.
  intros Hab. apply Qle_bool_iff.
  destruct (Qlt_le_dec a b) as [Hlt | Hle]; [| exact Hle].
  apply Qlt_le_weak, Qle_bool_iff in Hlt. congruence.
Qed.

Lemma fle_notna x y : fle x y = true -> notna x = true /\ notna y = true.
Proof. destruct x, y; simpl; intros E; try discriminate; auto. Qed.

Lemma fle_refl x : notna x = true -> fle x x = true.
Proof.
  destruct x; simpl; intros E; try discriminate; auto.
  apply Qle_bool_iff, Qle_refl.
Qed.

Lemma fle_trans x y z : fle x y = true -> fle y z = true -> fle x z = true.
Proof.
  destruct x, y, z; simpl; intros E1 E2; try discriminate; auto.
  apply Qle_bool_iff. apply Qle_bool_iff in E1, E2.
  eapply Qle_trans; eassumption.
Qed.

Lemma fle_total x y :
  notna x = true -> notna y = true -> fle x y = false -> fle y x = true.
Proof.
  destruct x, y; simpl; intros Hx Hy E; try discriminate; auto.
  apply Qle_bool_total. exact E.
Qed.

Lemma fmax_cases x y : fmax x y = x \/ fmax x y = y.
Proof. unfold fmax. destruct (fle x y); auto. Qed.

Lemma fmin_cases x y : fmin x y = x \/ fmin x y = y.
Proof. unfold fmin. destruct (fle x y); auto. Qed.

Lemma fmax_upper x y :
  notna x = true -> notna y = true ->
  fle x (fmax x y) = true /\ fle y (fmax x y) = true.
Proof.
  intros Hx Hy. unfold fmax. destruct (fle x y) eqn:E.
  - split; [exact E | apply fle_refl; exact Hy].
  - split; [apply fle_refl; exact Hx | apply fle_total; assumption].
Qed.

Lemma fmin_lower x y :
  notna x = true -> notna y = true ->
  fle (fmin x y) x = true /\ fle (fmin x y) y = true.
Proof.
  intros Hx Hy. unfold fmin. destruct (fle x y) eqn:E.
  - split; [apply fle_refl; exact Hx | exact E].
  - split; [apply fle_total; assumption | apply fle_refl; exact Hy].
Qed.

End FloatFacts.

#[export] Instance feq_equivalence : Equivalence feq.
Proof.
  split.
  - intros x. apply feq_refl.
  - intros x y. apply feq_sym.
  - intros x y z. apply feq_trans.
Qed.

(** ** Reductions of a series *)

Section SeriesFacts.

Lemma dropna_values_notna s : all_notna (dropna_values s).
Proof.
  unfold all_notna, dropna_values. apply Forall_forall.
  intros x Hx. apply filter_In in Hx. tauto.
Qed.

Lemma fold_fmax_spec rest :
  forall x, notna x = true -> all_notna rest ->
  In (fold_left fmax rest x) (x :: rest)
  /\ forall y, In y (x :: rest) -> fle y (fold_left fmax rest x) = true.
Proof.
  induction rest as [| a rest IH]; intros x Hx Hrest; simpl.
  - split; [auto |]. intros y [<- | []]. apply fle_refl. exact Hx.
  - inversion Hrest as [| ? ? Ha Hrest']; subst.
    destruct (fmax_upper x a Hx Ha) as [Ux Ua].
    assert (Hm : notna (fmax x a) = true) by (destruct (fmax_cases x a) as [-> | ->]; assumption).
    destruct (IH (fmax x a) Hm Hrest') as [Hin Hub]. split.
    + destruct Hin as [E | Hin]; [| auto].
      rewrite <- E. destruct (fmax_cases x a) as [-> | ->]; auto.
    + intros y [<- | [<- | Hy]].
      * eapply fle_trans; [exact Ux | apply Hub; left; reflexivity].
      * eapply fle_trans; [exact Ua | apply Hub; left; reflexivity].
      * apply Hub. right. exact Hy.
Qed.

Lemma fold_fmin_spec rest :
  forall x, notna x = true -> all_notna rest ->
  In (fold_left fmin rest x) (x :: rest)
  /\ forall y, In y (x :: rest) -> fle (fold_left fmin rest x) y = true.
Proof.
  induction rest as [| a rest IH]; intros x Hx Hrest; simpl.
  - split; [auto |]. intros y [<- | []]. apply fle_refl. exact Hx.
  - inversion Hrest as [| ? ? Ha Hrest']; subst.
    destruct (fmin_lower x a Hx Ha) as [Lx La].
    assert (Hm : notna (fmin x a) = true) by (destruct (fmin_cases x a) as [-> | ->]; assumption).
    destruct (IH (fmin x a) Hm Hrest') as [Hin Hlb]. split.
    + destruct Hin as [E | Hin]; [| auto].
      rewrite <- E. destruct (fmin_cases x a) as [-> | ->]; auto.
    + intros y [<- | [<- | Hy]].
      * eapply fle_trans; [apply Hlb; left; reflexivity | exact Lx].
      * eapply fle_trans; [apply Hlb; left; reflexivity | exact La].
      * apply Hlb. right. exact Hy.
Qed.

(** The maximum is one of the entries that are not [nan] and bounds them
    all; there is one as soon as some entry is not [nan]. *)
Lemma series_max_spec s :
  dropna_values s <> [] ->
  In (series_max s) (dropna_values s)
  /\ forall y, In y (dropna_values s) -> fle y (series_max s) = true.
Proof.
  intros Hne. unfold series_max.
  pose proof (dropna_values_notna s) as Hall.
  destruct (dropna_values s) as [| x rest]; [contradiction |].
  inversion Hall; subst. apply fold_fmax_spec; assumption.
Qed.

Lemma series_min_spec s :
  dropna_values s <> [] ->
  In (series_min s) (dropna_values s)
  /\ forall y, In y (dropna_values s) -> fle (series_min s) y = true.
Proof.
  intros Hne. unfold series_min.
  pose proof (dropna_values_notna s) as Hall.
  destruct (dropna_values s) as [| x rest]; [contradiction |].
  inversion Hall; subst. apply fold_fmin_spec; assumption.
Qed.

Lemma agg_first_in s : dropna_values s <> [] -> In (agg_first s) (dropna_values s).
Proof.
  unfold agg_first. destruct (dropna_values s); [contradiction | left; reflexivity].
Qed.

Lemma last_in {A : Type} (l : list A) d : l <> [] -> In (List.last l d) l.
Proof.
  induction l as [| a l IH]; [contradiction |]. intros _.
  destruct l as [| b l]; [left; reflexivity |].
  right. apply IH. discriminate.
Qed.

Lemma agg_last_in s : dropna_values s <> [] -> In (agg_last s) (dropna_values s).
Proof. apply last_in. Qed.

Lemma agg_first_nan s : dropna_values s = [] -> agg_first s = NaN.
Proof. unfold agg_first. intros ->. reflexivity. Qed.

End SeriesFacts.

(** ** The bounded frame *)

Section TailFacts.
Context {A : Type}.
Implicit Types l : list A.

Lemma tail_length n l : List.length (tail n l) = Nat.min n (List.length l).
Proof. unfold tail. rewrite length_skipn. lia. Qed.

Lemma tail_all n l : (List.length l <= n)%nat -> tail n l = l.
Proof.
  intros Hn. unfold tail.
  replace (List.length l - n)%nat with O by lia. reflexivity.
Qed.

Lemma tail_is_suffix n l : firstn (List.length l - n) l ++ tail n l = l.
Proof. unfold tail. apply firstn_skipn. Qed.

Lemma skipn_app_length (a c : list A) m :
  skipn (List.length a + m) (a ++ c) = skipn m c.
Proof.
  rewrite skipn_app, skipn_all2 by lia.
  simpl. f_equal. lia.
Qed.

Lemma tail_app_drop n (a b l' : list A) :
  List.length b = n -> tail n ((a ++ b) ++ l') = tail n (b ++ l').
Proof.
  intros Hb. unfold tail. rewrite <- app_assoc, !length_app.
  replace (List.length a + (List.length b + List.length l') - n)%nat
    with (List.length a + (List.length b + List.length l' - n))%nat by lia.
  apply skipn_app_length.
Qed.

Lemma tail_app_tail n l l' : tail n (tail n l ++ l') = tail n (l ++ l').
Proof.
  destruct (Nat.le_gt_cases (List.length l) n) as [Hle | Hgt].
  - rewrite (tail_all l Hle). reflexivity.
  - rewrite <- (tail_is_suffix n l) at 2.
    symmetry. apply tail_app_drop. rewrite tail_length. lia.
Qed.

End TailFacts.

Section BufferFacts.

Lemma store_is_tail cap (md : DataFrame) r : store cap md r = tail cap (md ++ [r]).
Proof.
  unfold store. destruct (Nat.ltb_spec cap (List.length (md ++ [r]))) as [Hlt | Hge].
  - reflexivity.
  - symmetry. apply tail_all. exact Hge.
Qed.

Lemma store_all_from cap rows :
  forall md r, store_all cap (store cap md r) rows = tail cap ((md ++ [r]) ++ rows).
Proof.
  unfold store_all. induction rows as [| r' rows IH]; intros md r; simpl.
  - rewrite app_nil_r. apply store_is_tail.
  - rewrite IH, store_is_tail, <- app_assoc, tail_app_tail.
    rewrite <- !app_assoc. reflexivity.
Qed.

Lemma store_all_empty cap rows : store_all cap [] rows = tail cap rows.
Proof.
  destruct rows as [| r rows].
  - reflexivity.
  - change (store_all cap [] (r :: rows)) with (store_all cap (store cap [] r) rows).
    rewrite store_all_from. reflexivity.
Qed.

Lemma store_length cap (md : DataFrame) r : (List.length (store cap md r) <= cap)%nat.
Proof.
  unfold store. destruct (Nat.ltb_spec cap (List.length (md ++ [r]))) as [Hlt | Hge].
  - rewrite tail_length. lia.
  - exact Hge.
Qed.

Context `{Builtins}.

Lemma on_message_length cap data md :
  (List.length md <= cap)%nat ->
  (List.length (snd (on_message_with cap data md)) <= cap)%nat.
Proof.
  intros Hmd. unfold on_message_with.
  destruct (new_row data) as [[r |] | e]; simpl; auto using store_length.
Qed.

Lemma feed_length cap msgs :
  forall md, (List.length md <= cap)%nat -> (List.length (feed cap msgs md) <= cap)%nat.
Proof.
  unfold feed. induction msgs as [| m msgs IH]; intros md Hmd; simpl.
  - exact Hmd.
  - apply IH. apply on_message_length. exact Hmd.
Qed.

Lemma feed_is_store_all cap msgs :
  forall md, feed cap msgs md = store_all cap md (admitted msgs).
Proof.
  unfold feed, store_all, admitted.
  induction msgs as [| m msgs IH]; intros md; simpl; [reflexivity |].
  rewrite IH. unfold on_message_with.
  destruct (new_row m) as [[r |] | e]; reflexivity.
Qed.

End BufferFacts.

(** C2. After any append the frame holds at most [cap] rows; the rows that
    go are the earliest ones and the rest keep their order (the frame is a
    suffix of what it would be without the bound); rows appended one by one
    to the empty frame leave the last [cap] of them; a run of messages
    never takes the frame above [cap] and leaves the last [cap] of the rows
    it appended; and twenty thousand rows appended one by one under a bound
    of fifteen thousand leave exactly the last fifteen thousand, in
    order. *)
Theorem buffer_bounded_fifo :
  (forall cap (md : DataFrame) r, (List.length (store cap md r) <= cap)%nat)
  /\ (forall cap (md : DataFrame) r,
        firstn (List.length (md ++ [r]) - cap) (md ++ [r]) ++ store cap md r
        = md ++ [r])
  /\ (forall cap rows, store_all cap [] rows = tail cap rows)
  /\ (forall (B : Builtins) cap msgs,
        (List.length (feed cap msgs []) <= cap)%nat
        /\ feed cap msgs [] = tail cap (admitted msgs))
  /\ (forall rows : list row,
        List.length rows = 20000%nat ->
        store_all 15000 [] rows = skipn 5000 rows
        /\ List.length (store_all 15000 [] rows) = 15000%nat).
Proof.
  split; [| split; [| split; [| split]]].
  - apply store_length.
  - intros. rewrite store_is_tail. apply tail_is_suffix.
  - apply store_all_empty.
  - intros B cap msgs. split.
    + apply feed_length. simpl. lia.
    + rewrite feed_is_store_all. apply store_all_empty.
  - intros rows Hlen. rewrite store_all_empty. split.
    + unfold tail. rewrite Hlen. reflexivity.
    + rewrite tail_length, Hlen. reflexivity.
Qed.

Lemma buffer_bounded_fifo_witness :
  store_all 15000 [] scenario_rows = skipn 5000 scenario_rows
  /\ List.length (store_all 15000 [] scenario_rows) = 15000%nat.
Proof.
  apply (proj2 (proj2 (proj2 (proj2 buffer_bounded_fifo))) scenario_rows).
  unfold scenario_rows. rewrite length_map, length_seq. reflexivity.
Defined.

(** ** Messages that are not ticks *)

Section MessageFacts.
Local Open Scope string_scope.

Section IngestFacts.
Context `{Builtins}.

Lemma new_row_ticker items :
  new_row (JObj items) =
  if eq_str (dict_get "type" items) "ticker" then
    if Py.truthy (dict_get "price" items) && Py.truthy (dict_get "last_size" items)
    then
      t' <- to_datetime (dict_get "time" items) ;;
      p' <- py_float (dict_get "price" items) ;;
      sh' <- py_float (dict_get "last_size" items) ;;
      Ok (Some (Row t' (dict_get "product_id" items) p' sh' (dict_get "side" items)))
    else Ok None
  else Ok None.
Proof. reflexivity. Qed.

Lemma new_row_malformed items :
  malformed (dict_get "price" items) \/ malformed (dict_get "last_size" items) ->
  forall r, new_row (JObj items) <> Ok (Some r).
Proof.
  unfold malformed. intros Hbad r. rewrite new_row_ticker.
  destruct (eq_str _ _); [| discriminate].
  destruct (_ && _); [| discriminate].
  destruct (to_datetime _); [| discriminate]. simpl.
  destruct (py_float (dict_get "price" items)); simpl.
  - destruct (py_float (dict_get "last_size" items)); simpl.
    + destruct Hbad; discriminate.
    + discriminate.
  - discriminate.
Qed.

End IngestFacts.

(** A price that is text but no number: [on_message] raises [ValueError]
    to the caller of the callback, and the frame is as it was. *)
Lemma malformed_tick_raises :
  eq_str (dict_get "type" bad_price_items) "ticker" = true
  /\ @malformed builtins (dict_get "price" bad_price_items)
  /\ @on_message builtins bad_price_message [] = (Raise ValueError, []).
Proof. repeat split. Qed.

(** C7 as stated fails: a ticker message whose price is the text [nan] is
    not rejected. [float] accepts the text, the price it gives is not a
    number, and the row is stored. *)
Lemma nan_price_is_stored :
  eq_str (dict_get "type" nan_price_items) "ticker" = true
  /\ @py_float builtins (dict_get "price" nan_price_items) = Ok NaN
  /\ is_finite NaN = false
  /\ @on_message builtins nan_price_message []
     = (Ok tt, [Row 0 JNull NaN (Fin 1) JNull]).
Proof. repeat split; vm_compute; reflexivity. Qed.

(** C7, amended. A message whose price or size [float] refuses (a missing
    field among them) stores nothing and leaves the frame as it was, and
    ingestion goes on: the messages that follow are handled exactly as if
    it had not been sent. When its price or size is missing, null, empty
    or zero the call itself returns without raising. *)
Theorem malformed_tick_leaves_frame (B : Builtins) cap md items :
  malformed (dict_get "price" items) \/ malformed (dict_get "last_size" items) ->
  snd (on_message_with cap (JObj items) md) = md
  /\ (forall rest, feed cap (JObj items :: rest) md = feed cap rest md)
  /\ (Py.truthy (dict_get "price" items) && Py.truthy (dict_get "last_size" items) = false ->
      on_message_with cap (JObj items) md = (Ok tt, md))
  /\ (dict_get "price" items = JNull \/ dict_get "last_size" items = JNull ->
      on_message_with cap (JObj items) md = (Ok tt, md)).
Proof.
  intros Hbad. pose proof (new_row_malformed items Hbad) as Hnew.
  assert (Hsilent :
    Py.truthy (dict_get "price" items) && Py.truthy (dict_get "last_size" items) = false ->
    on_message_with cap (JObj items) md = (Ok tt, md)).
  { intros Hfalsy. unfold on_message_with. rewrite new_row_ticker, Hfalsy.
    destruct (eq_str _ _); reflexivity. }
  assert (Hsame : snd (on_message_with cap (JObj items) md) = md).
  { unfold on_message_with.
    destruct (new_row (JObj items)) as [[r |] | e]; try reflexivity.
    exfalso. apply (Hnew r). reflexivity. }
  split; [exact Hsame | split; [| split]].
  - intros rest. unfold feed. simpl. fold (on_message_with cap (JObj items) md).
    rewrite Hsame. reflexivity.
  - exact Hsilent.
  - intros [E | E]; apply Hsilent; rewrite E; simpl;
      [reflexivity | apply andb_false_r].
Qed.

Lemma malformed_tick_leaves_frame_witness :
  @malformed builtins (dict_get "price" bad_price_items)
  /\ snd (@on_message_with builtins 2 bad_price_message [tick 0 10 1])
     = [tick 0 10 1]
  /\ @feed builtins 2 [bad_price_message; MoreExamples.good_message]
           [tick 0 10 1]
     = @feed builtins 2 [MoreExamples.good_message] [tick 0 10 1].
Proof.
  split; [reflexivity |].
  destruct (@malformed_tick_leaves_frame builtins 2 [tick 0 10 1] bad_price_items)
    as (Hsame & Hfeed & _).
  - left. reflexivity.
  - split; [exact Hsame | apply Hfeed].
Defined.

End MessageFacts.

(** ** The stable sort by time *)

Section SortFacts.

Lemma insert_by_time_perm r l : Permutation (r :: l) (insert_by_time r l).
Proof.
  induction l as [| x l IH]; simpl.
  - reflexivity.
  - destruct (time r <=? time x).
    + reflexivity.
    + rewrite perm_swap. apply perm_skip. exact IH.
Qed.

Lemma sort_by_time_perm df : Permutation df (sort_by_time df).
Proof.
  induction df as [| r df IH]; simpl.
  - reflexivity.
  - rewrite <- insert_by_time_perm. apply perm_skip. exact IH.
Qed.

Lemma sort_by_time_In df r : In r (sort_by_time df) <-> In r df.
Proof.
  split; intros Hin.
  - eapply Permutation_in; [symmetry; apply sort_by_time_perm | exact Hin].
  - eapply Permutation_in; [apply sort_by_time_perm | exact Hin].
Qed.

Lemma insert_by_time_sorted r l :
  StronglySorted by_time l -> StronglySorted by_time (insert_by_time r l).
Proof.
  induction 1 as [| x l Hl IH Hx]; simpl.
  - constructor; constructor.
  - destruct (Z.leb_spec (time r) (time x)) as [Hle | Hgt].
    + constructor; [constructor; assumption |].
      constructor; [exact Hle |].
      rewrite Forall_forall in *. intros y Hy.
      unfold by_time in *. specialize (Hx y Hy). lia.
    + constructor; [exact IH |].
      rewrite Forall_forall in *. intros y Hy.
      apply (Permutation_in _ (Permutation_sym (insert_by_time_perm r l))) in Hy.
      destruct Hy as [<- | Hy]; [unfold by_time; lia | auto].
Qed.

Lemma sort_by_time_sorted df : StronglySorted by_time (sort_by_time df).
Proof.
  induction df as [| r df IH]; simpl.
  - constructor.
  - apply insert_by_time_sorted. exact IH.
Qed.

(** Inserting below everything puts the row in front. *)
Lemma insert_by_time_front r l :
  (forall y, In y l -> time r <= time y) -> insert_by_time r l = r :: l.
Proof.
  destruct l as [| x l]; simpl; [reflexivity |].
  intros Hall. destruct (Z.leb_spec (time r) (time x)) as [_ | Hgt].
  - reflexivity.
  - specialize (Hall x (or_introl eq_refl)). lia.
Qed.

Lemma filter_insert_by_time (p : row -> bool) r l :
  StronglySorted by_time l ->
  filter p (insert_by_time r l)
  = if p r then insert_by_time r (filter p l) else filter p l.
Proof.
  induction 1 as [| x l Hl IH Hx]; simpl.
  - destruct (p r); reflexivity.
  - destruct (Z.leb_spec (time r) (time x)) as [Hle | Hgt]; simpl.
    + destruct (p r) eqn:Er; [| reflexivity].
      symmetry. apply insert_by_time_front.
      intros y Hy.
      assert (Hy' : In y (x :: l)).
      { destruct (p x); [destruct Hy as [<- | Hy]; [left; reflexivity |] |];
          right; apply filter_In in Hy; tauto. }
      destruct Hy' as [<- | Hy']; [exact Hle |].
      rewrite Forall_forall in Hx. specialize (Hx y Hy'). unfold by_time in Hx. lia.
    + rewrite IH. destruct (p x) eqn:Ex, (p r) eqn:Er; simpl; try reflexivity.
      destruct (Z.leb_spec (time r) (time x)); [lia | reflexivity].
Qed.

(** Filtering commutes with the stable sort. *)
Lemma filter_sort_by_time (p : row -> bool) df :
  filter p (sort_by_time df) = sort_by_time (filter p df).
Proof.
  induction df as [| r df IH]; simpl; [reflexivity |].
  rewrite filter_insert_by_time by apply sort_by_time_sorted.
  rewrite IH. destruct (p r); reflexivity.
Qed.

Lemma earliest_lower g e : earliest g e -> forall r, In r g -> time e <= time r.
Proof.
  intros (pre & post & -> & Hpre & Hpost) r Hr.
  apply in_app_or in Hr. destruct Hr as [Hr | [<- | Hr]].
  - specialize (Hpre r Hr). lia.
  - lia.
  - auto.
Qed.

Lemma latest_upper g e : latest g e -> forall r, In r g -> time r <= time e.
Proof.
  intros (pre & post & -> & Hpre & Hpost) r Hr.
  apply in_app_or in Hr. destruct Hr as [Hr | [<- | Hr]].
  - auto.
  - lia.
  - specialize (Hpost r Hr). lia.
Qed.

(** The head of the sorted rows is the earliest row: the first one in
    arrival order among those with the least time. *)
Lemma sort_by_time_head g :
  g <> [] -> exists e rest, sort_by_time g = e :: rest /\ earliest g e.
Proof.
  induction g as [| r g IH]; [contradiction |]. intros _. simpl.
  destruct g as [| r' g'].
  - exists r, []. split; [reflexivity |].
    exists [], []. simpl. repeat split; intros ? [].
  - destruct IH as (e & rest & Hsort & He); [discriminate |].
    rewrite Hsort. simpl.
    destruct (Z.leb_spec (time r) (time e)) as [Hle | Hgt].
    + exists r, (e :: rest). split; [reflexivity |].
      exists [], (r' :: g'). simpl. repeat split; [intros ? [] |].
      intros y Hy. pose proof (earliest_lower He y Hy). lia.
    + exists e, (insert_by_time r rest). split; [reflexivity |].
      destruct He as (pre & post & Hg & Hpre & Hpost).
      exists (r :: pre), post. rewrite Hg. simpl. repeat split; [| exact Hpost].
      intros y [<- | Hy]; [lia | auto].
Qed.

Lemma last_insert_by_time r l d :
  List.last (insert_by_time r l) d
  = if forallb (fun y => time y <? time r) l then r else List.last l d.
Proof.
  induction l as [| x l IH]; simpl; [reflexivity |].
  destruct (Z.leb_spec (time r) (time x)) as [Hle | Hgt].
  - destruct (Z.ltb_spec (time x) (time r)); [lia |]. simpl.
    destruct l; reflexivity.
  - destruct (Z.ltb_spec (time x) (time r)); [| lia]. simpl.
    change (List.last (x :: insert_by_time r l) d)
      with (match insert_by_time r l with [] => x | _ :: _ => List.last (insert_by_time r l) d end).
    destruct (insert_by_time r l) eqn:E.
    + destruct l; simpl in E; [discriminate |].
      destruct (time r <=? time r0); discriminate.
    + rewrite IH. destruct (forallb _ l) eqn:F; [reflexivity |].
      destruct l; [discriminate | reflexivity].
Qed.

Lemma forallb_false_witness {A : Type} (f : A -> bool) l :
  forallb f l = false -> exists y, In y l /\ f y = false.
Proof.
  induction l as [| a l IH]; simpl; [discriminate |].
  destruct (f a) eqn:E; simpl.
  - intros F. destruct (IH F) as (y & Hy & Hf). exists y. auto.
  - intros _. exists a. auto.
Qed.

(** The last of the sorted rows is the latest row: the last one in arrival
    order among those with the greatest time. *)
Lemma sort_by_time_last g d :
  g <> [] -> latest g (List.last (sort_by_time g) d).
Proof.
  induction g as [| r g IH]; [contradiction |]. intros _. simpl.
  rewrite last_insert_by_time.
  destruct (forallb _ (sort_by_time g)) eqn:F.
  - exists [], g. simpl. repeat split; [intros ? [] |].
    intros y Hy. rewrite forallb_forall in F.
    apply <- sort_by_time_In in Hy. apply F in Hy. lia.
  - destruct g as [| r' g']; [discriminate |].
    specialize (IH ltac:(discriminate)).
    set (e := List.last (sort_by_time (r' :: g')) d) in *.
    assert (Hre : time r <= time e).
    { destruct (forallb_false_witness _ _ F) as (y & Hy & Hf).
      apply -> sort_by_time_In in Hy.
      pose proof (latest_upper IH y Hy).
      apply Z.ltb_ge in Hf. lia. }
    destruct IH as (pre & post & Hg & Hpre & Hpost).
    exists (r :: pre), post. rewrite Hg. simpl. repeat split; [| exact Hpost].
    intros y [<- | Hy]; [exact Hre | auto].
Qed.

End SortFacts.

(** ** Buckets *)

Section BucketFacts.

Lemma BUCKET_NS_pos : 0 < BUCKET_NS.
Proof. reflexivity. Qed.

Lemma bucket_of_spec t k :
  bucket_of t = k <-> k * BUCKET_NS <= t < k * BUCKET_NS + BUCKET_NS.
Proof.
  unfold bucket_of. pose proof BUCKET_NS_pos as Hpos. split.
  - intros <-. pose proof (Z.mul_div_le t BUCKET_NS Hpos).
    pose proof (Z.mul_succ_div_gt t BUCKET_NS Hpos). lia.
  - intros [Hlo Hhi]. symmetry. apply (Z.div_unique_pos t BUCKET_NS k (t - k * BUCKET_NS)); lia.
Qed.

Lemma bucket_of_mono t t' : t <= t' -> bucket_of t <= bucket_of t'.
Proof. intros Hle. apply Z.div_le_mono; [apply BUCKET_NS_pos | exact Hle]. Qed.

Lemma in_bucket_spec k r :
  in_bucket k r = true <-> k * BUCKET_NS <= time r < k * BUCKET_NS + BUCKET_NS.
Proof. unfold in_bucket. rewrite Z.eqb_eq. apply bucket_of_spec. Qed.

Lemma last_cons_default {A : Type} (l : list A) x d :
  List.last (x :: l) d = List.last l x.
Proof.
  revert x d. induction l as [| a l IH]; intros x d; [reflexivity |].
  change (List.last (x :: a :: l) d) with (List.last (a :: l) d).
  rewrite (IH a d), (IH a x). reflexivity.
Qed.

Lemma sorted_last_max (l : DataFrame) d :
  StronglySorted by_time l ->
  forall y, In y l -> time y <= time (List.last l d).
Proof.
  induction 1 as [| x l Hs IH Hx]; intros y Hy; [contradiction |].
  rewrite Forall_forall in Hx.
  destruct l as [| a l'].
  - destruct Hy as [<- | []]. simpl. lia.
  - change (List.last (x :: a :: l') d) with (List.last (a :: l') d).
    destruct Hy as [<- | Hy]; [| apply IH; exact Hy].
    apply Hx. apply last_in. discriminate.
Qed.

Lemma sorted_last_upper (l : DataFrame) r :
  StronglySorted by_time (r :: l) ->
  forall y, In y (r :: l) -> time r <= time y /\ time y <= time (List.last l r).
Proof.
  intros Hs y Hy. split.
  - inversion Hs as [| ? ? _ Hr]; subst. rewrite Forall_forall in Hr.
    destruct Hy as [<- | Hy]; [lia | apply Hr; exact Hy].
  - rewrite <- (last_cons_default l r r). apply sorted_last_max; assumption.
Qed.

Lemma bins_In sorted r :
  StronglySorted by_time sorted -> In r sorted ->
  In (bucket_of (time r)) (bins sorted).
Proof.
  intros Hs Hr. destruct sorted as [| r0 rest]; [contradiction |].
  destruct (sorted_last_upper Hs Hr) as [Hlo Hhi].
  apply bucket_of_mono in Hlo, Hhi. unfold bins.
  apply in_map_iff.
  exists (Z.to_nat (bucket_of (time r) - bucket_of (time r0))). split.
  - lia.
  - apply in_seq. lia.
Qed.

Lemma bins_increasing sorted : StronglySorted Z.lt (bins sorted).
Proof.
  destruct sorted as [| r0 rest]; [constructor |]. unfold bins.
  generalize (Z.to_nat (bucket_of (time (List.last rest r0)) - bucket_of (time r0) + 1)).
  generalize (bucket_of (time r0)). intros k0 n.
  generalize 0%nat. induction n as [| n IH]; intros s; simpl.
  - constructor.
  - constructor; [apply IH |].
    apply Forall_forall. intros k Hk. apply in_map_iff in Hk.
    destruct Hk as (i & <- & Hi). apply in_seq in Hi. lia.
Qed.

End BucketFacts.

(** ** Sums of finite series *)

Section SumFacts.

Lemma all_finite_dropna s : all_finite s -> dropna_values s = s.
Proof.
  unfold all_finite, dropna_values. induction 1 as [| x s Hx _ IH]; simpl.
  - reflexivity.
  - destruct x; try discriminate. simpl. rewrite IH. reflexivity.
Qed.

Lemma all_finite_In s x : all_finite s -> In x s -> exists q, x = Fin q.
Proof.
  unfold all_finite. rewrite Forall_forall. intros Hs Hx.
  specialize (Hs x Hx). destruct x; try discriminate. eauto.
Qed.

Lemma fold_fadd_finite s :
  all_finite s ->
  forall a, fold_left fadd s (Fin a) = Fin (fold_left Qplus (map to_Q s) a).
Proof.
  induction 1 as [| x s Hx _ IH]; intros a; simpl.
  - reflexivity.
  - destruct x; try discriminate. simpl. apply IH.
Qed.

Lemma fold_Qplus_proper l :
  forall a b, (a == b)%Q -> (fold_left Qplus l a == fold_left Qplus l b)%Q.
Proof.
  induction l as [| x l IH]; intros a b E; simpl.
  - exact E.
  - apply IH. rewrite E. reflexivity.
Qed.

Lemma fold_Qplus_perm l l' :
  Permutation l l' ->
  forall a, (fold_left Qplus l a == fold_left Qplus l' a)%Q.
Proof.
  induction 1 as [| x l l' _ IH | x y l | l l' l'' _ IH1 _ IH2]; intros a; simpl.
  - reflexivity.
  - apply IH.
  - apply fold_Qplus_proper. ring.
  - rewrite IH1. apply IH2.
Qed.

Lemma all_finite_perm s s' : Permutation s s' -> all_finite s -> all_finite s'.
Proof. intros Hp. apply Permutation_Forall. exact Hp. Qed.

(** The sum of a finite series does not depend on the order of its
    entries. *)
Lemma fold_fadd_perm s s' :
  Permutation s s' -> all_finite s ->
  (fold_left fadd s (Fin 0) == fold_left fadd s' (Fin 0))%F.
Proof.
  intros Hp Hs.
  rewrite (fold_fadd_finite Hs), (fold_fadd_finite (all_finite_perm Hp Hs)).
  simpl. apply fold_Qplus_perm. apply Permutation_map. exact Hp.
Qed.

End SumFacts.

(** ** Candles *)

Section CandleFacts.

Lemma in_interval_bucket k r : in_interval (k * BUCKET_NS) r = in_bucket k r.
Proof.
  apply eq_true_iff_eq. rewrite in_bucket_spec. unfold in_interval.
  rewrite andb_true_iff, Z.leb_le, Z.ltb_lt. tauto.
Qed.

Lemma members_bucket k df : members (k * BUCKET_NS) df = filter (in_bucket k) df.
Proof. apply filter_ext. intros r. apply in_interval_bucket. Qed.

(** The rows [agg_bin] reduces are the members of the bucket, sorted. *)
Lemma group_sorted_members df k :
  filter (in_bucket k) (sort_by_time df)
  = sort_by_time (members (k * BUCKET_NS) df).
Proof. rewrite members_bucket. apply filter_sort_by_time. Qed.

Lemma ohlc_data_In df c :
  In c (ohlc_data df) <->
  exists k, In k (bins (sort_by_time df))
            /\ c = agg_bin (sort_by_time df) k /\ complete c = true.
Proof.
  unfold ohlc_data, dropna, resample_agg. rewrite filter_In, in_map_iff. split.
  - intros [(k & <- & Hk) Hc]. exists k. auto.
  - intros (k & Hk & -> & Hc). split; [exists k; auto | exact Hc].
Qed.

(** A candle that survives [dropna] has a row in its bucket whose price is
    not [nan]. *)
Lemma complete_has_price sorted k :
  complete (agg_bin sorted k) = true ->
  dropna_values (col_price (filter (in_bucket k) sorted)) <> [].
Proof.
  unfold complete. simpl. intros Hc E.
  rewrite (agg_first_nan _ E) in Hc. discriminate.
Qed.

Lemma dropna_values_incl s x : In x (dropna_values s) -> In x s.
Proof. unfold dropna_values. intros Hx. apply filter_In in Hx. tauto. Qed.

Lemma candle_has_row df c :
  In c (ohlc_data df) ->
  c_time c mod BUCKET_NS = 0
  /\ exists r, In r df /\ c_time c <= time r < c_time c + BUCKET_NS.
Proof.
  intros Hc. apply ohlc_data_In in Hc. destruct Hc as (k & _ & -> & Hc).
  split; [simpl; apply Z.mod_mul; discriminate |].
  apply complete_has_price in Hc.
  destruct (dropna_values (col_price (filter (in_bucket k) (sort_by_time df))))
    as [| x rest] eqn:E; [contradiction |].
  assert (Hx : In x (col_price (filter (in_bucket k) (sort_by_time df)))).
  { apply dropna_values_incl. rewrite E. left. reflexivity. }
  apply in_map_iff in Hx. destruct Hx as (r & _ & Hr).
  apply filter_In in Hr. destruct Hr as [Hr Hk].
  exists r. split; [apply sort_by_time_In; exact Hr |].
  simpl. apply in_bucket_spec. exact Hk.
Qed.

Lemma map_increasing_apart (f : Z -> candle) ks :
  (forall k, c_time (f k) = k * BUCKET_NS) ->
  StronglySorted Z.lt ks -> StronglySorted apart (map f ks).
Proof.
  intros Hf. induction 1 as [| k ks _ IH Hk]; simpl; constructor.
  - exact IH.
  - rewrite Forall_forall in *. intros c Hc.
    apply in_map_iff in Hc. destruct Hc as (k' & <- & Hk').
    unfold apart. rewrite !Hf. specialize (Hk k' Hk').
    pose proof BUCKET_NS_pos. nia.
Qed.

Lemma filter_StronglySorted {A : Type} (R : A -> A -> Prop) (p : A -> bool) l :
  StronglySorted R l -> StronglySorted R (filter p l).
Proof.
  induction 1 as [| x l _ IH Hx]; simpl; [constructor |].
  destruct (p x); [| exact IH]. constructor; [exact IH |].
  rewrite Forall_forall in *. intros y Hy. apply Hx.
  apply filter_In in Hy. tauto.
Qed.


Lemma ohlc_data_apart df : StronglySorted apart (ohlc_data df).
Proof.
  unfold ohlc_data, dropna, resample_agg.
  apply filter_StronglySorted, map_increasing_apart.
  - reflexivity.
  - apply bins_increasing.
Qed.

End CandleFacts.

(** ** Candles of numeric rows *)

Section NumericFacts.

Lemma numeric_prices df : numeric df -> all_finite (col_price df).
Proof.
  unfold numeric, all_finite, col_price. intros Hn. apply Forall_map.
  eapply Forall_impl; [| exact Hn]. intros r Hr.
  apply andb_true_iff in Hr. tauto.
Qed.

Lemma numeric_shares df : numeric df -> all_finite (col_shares df).
Proof.
  unfold numeric, all_finite, col_shares. intros Hn. apply Forall_map.
  eapply Forall_impl; [| exact Hn]. intros r Hr.
  apply andb_true_iff in Hr. tauto.
Qed.

Lemma numeric_perm df df' : Permutation df df' -> numeric df -> numeric df'.
Proof. intros Hp. apply Permutation_Forall. exact Hp. Qed.

Lemma numeric_members start df : numeric df -> numeric (members start df).
Proof.
  unfold numeric, members. rewrite !Forall_forall. intros Hn r Hr.
  apply Hn. apply filter_In in Hr. tauto.
Qed.

Lemma all_finite_notna x : is_finite x = true -> notna x = true.
Proof. destruct x; simpl; auto. Qed.

Lemma last_map_nonempty {A B : Type} (f : A -> B) l d d' :
  l <> [] -> List.last (map f l) d' = f (List.last l d).
Proof.
  induction l as [| a l IH]; [contradiction |]. intros _.
  destruct l as [| b l]; [reflexivity |].
  change (List.last (map f (a :: b :: l)) d') with (List.last (map f (b :: l)) d').
  change (List.last (a :: b :: l) d) with (List.last (b :: l) d).
  apply IH. discriminate.
Qed.

Lemma is_max_perm m s s' : Permutation s s' -> is_max m s -> is_max m s'.
Proof.
  intros Hp [Hin Hub]. split.
  - eapply Permutation_in; eassumption.
  - intros y Hy. apply Hub. eapply Permutation_in; [symmetry |]; eassumption.
Qed.

Lemma is_min_perm m s s' : Permutation s s' -> is_min m s -> is_min m s'.
Proof.
  intros Hp [Hin Hlb]. split.
  - eapply Permutation_in; eassumption.
  - intros y Hy. apply Hlb. eapply Permutation_in; [symmetry |]; eassumption.
Qed.

(** On numeric rows the candle of a bucket with at least one row is the
    candle the specification describes, and it survives [dropna]. *)
Lemma agg_bin_numeric df k :
  numeric df -> members (k * BUCKET_NS) df <> [] ->
  complete (agg_bin (sort_by_time df) k) = true
  /\ candle_of df (agg_bin (sort_by_time df) k).
Proof.
  intros Hn Hne. unfold candle_of, agg_bin, complete. simpl.
  rewrite group_sorted_members.
  set (g := members (k * BUCKET_NS) df) in *.
  pose proof (sort_by_time_perm g) as Hperm.
  assert (Hg : numeric (sort_by_time g))
    by (apply (numeric_perm Hperm), numeric_members; exact Hn).
  pose proof (numeric_prices Hg) as Hp. pose proof (numeric_shares Hg) as Hs.
  assert (Hpne : dropna_values (col_price (sort_by_time g)) <> []).
  { rewrite (all_finite_dropna Hp). intros E. apply map_eq_nil in E.
    apply Hne. apply Permutation_sym in Hperm. rewrite E in Hperm.
    apply Permutation_nil. exact Hperm. }
  destruct (series_max_spec _ Hpne) as [Hmax_in Hmax_ub].
  destruct (series_min_spec _ Hpne) as [Hmin_in Hmin_lb].
  pose proof (agg_first_in _ Hpne) as Hfirst.
  pose proof (agg_last_in _ Hpne) as Hlast.
  pose proof (dropna_values_notna (col_price (sort_by_time g))) as Hnotna.
  unfold all_notna in Hnotna. rewrite Forall_forall in Hnotna.
  assert (Hvol : agg_sum (col_shares (sort_by_time g))
                 = Fin (fold_left Qplus (map to_Q (col_shares (sort_by_time g))) 0%Q)).
  { unfold agg_sum. rewrite (all_finite_dropna Hs). apply fold_fadd_finite. exact Hs. }
  split.
  - rewrite (Hnotna _ Hfirst), (Hnotna _ Hmax_in), (Hnotna _ Hmin_in),
      (Hnotna _ Hlast), Hvol. reflexivity.
  - rewrite (all_finite_dropna Hp) in *.
    assert (Hpp : Permutation (col_price (sort_by_time g)) (map price g))
      by (apply Permutation_map, Permutation_sym; exact Hperm).
    split; [exact Hne |]. split; [| split; [| split; [| split]]].
    + destruct (sort_by_time_head Hne) as (e & rest & Hsort & He).
      exists e. split; [exact He |].
      unfold agg_first. rewrite (all_finite_dropna Hp), Hsort. reflexivity.
    + exists (List.last (sort_by_time g) (Row 0 JNull NaN NaN JNull)).
      split; [apply sort_by_time_last; exact Hne |].
      unfold agg_last. rewrite (all_finite_dropna Hp).
      apply last_map_nonempty. intros E. apply Hpne.
      rewrite E. reflexivity.
    + apply (is_max_perm Hpp). split; assumption.
    + apply (is_min_perm Hpp). split; assumption.
    + unfold agg_sum, sum_sizes. rewrite (all_finite_dropna Hs).
      apply fold_fadd_perm; [| exact Hs].
      apply Permutation_map, Permutation_sym. exact Hperm.
Qed.

Lemma ohlc_data_numeric df c :
  numeric df -> In c (ohlc_data df) -> candle_of df c.
Proof.
  intros Hn Hc. apply ohlc_data_In in Hc. destruct Hc as (k & _ & -> & Hc).
  apply agg_bin_numeric; [exact Hn |].
  apply complete_has_price in Hc. rewrite group_sorted_members in Hc.
  intros E. apply Hc. rewrite E. reflexivity.
Qed.

Lemma row_has_candle df r :
  numeric df -> In r df ->
  exists c, In c (ohlc_data df) /\ c_time c <= time r < c_time c + BUCKET_NS.
Proof.
  intros Hn Hr. set (k := bucket_of (time r)).
  assert (Hk : in_bucket k r = true) by (apply Z.eqb_refl).
  assert (Hne : members (k * BUCKET_NS) df <> []).
  { rewrite members_bucket. intros E.
    assert (Hin : In r (filter (in_bucket k) df)) by (apply filter_In; auto).
    rewrite E in Hin. exact Hin. }
  destruct (agg_bin_numeric k Hn Hne) as [Hc _].
  exists (agg_bin (sort_by_time df) k). split.
  - apply ohlc_data_In. exists k. repeat split; [| exact Hc].
    apply bins_In; [apply sort_by_time_sorted | apply sort_by_time_In; exact Hr].
  - simpl. apply in_bucket_spec. exact Hk.
Qed.

(** A frame with a row has a candle, when its rows are numeric. *)
Lemma ohlc_data_nonempty df :
  numeric df -> df <> [] -> ohlc_data df <> [].
Proof.
  intros Hn Hne. destruct df as [| r df]; [contradiction |].
  destruct (@row_has_candle (r :: df) r Hn (or_introl eq_refl)) as (c & Hc & _).
  intros E. rewrite E in Hc. exact Hc.
Qed.

End NumericFacts.

(** ** Consistency of every candle *)

Section ConsistencyFacts.

Lemma agg_bin_consistent sorted k :
  complete (agg_bin sorted k) = true -> consistent (agg_bin sorted k).
Proof.
  intros Hc. apply complete_has_price in Hc.
  destruct (series_max_spec _ Hc) as [_ Hub].
  destruct (series_min_spec _ Hc) as [_ Hlb].
  pose proof (agg_first_in _ Hc) as Hfirst.
  pose proof (agg_last_in _ Hc) as Hlast.
  unfold consistent. simpl. auto.
Qed.

End ConsistencyFacts.

(** ** The levels *)

Section LevelFacts.

Lemma series_max_finite w :
  w <> [] -> all_finite w -> exists hi, series_max w = Fin hi /\ is_max (Fin hi) w.
Proof.
  intros Hne Hw.
  assert (Hd : dropna_values w <> []) by (rewrite (all_finite_dropna Hw); exact Hne).
  destruct (series_max_spec _ Hd) as [Hin Hub].
  rewrite (all_finite_dropna Hw) in Hin, Hub.
  destruct (all_finite_In _ Hw Hin) as [hi E].
  exists hi. rewrite <- E. repeat split; assumption.
Qed.

Lemma series_min_finite w :
  w <> [] -> all_finite w -> exists lo, series_min w = Fin lo /\ is_min (Fin lo) w.
Proof.
  intros Hne Hw.
  assert (Hd : dropna_values w <> []) by (rewrite (all_finite_dropna Hw); exact Hne).
  destruct (series_min_spec _ Hd) as [Hin Hlb].
  rewrite (all_finite_dropna Hw) in Hin, Hlb.
  destruct (all_finite_In _ Hw Hin) as [lo E].
  exists lo. rewrite <- E. repeat split; assumption.
Qed.

Lemma iloc_last_finite w :
  w <> [] -> all_finite w ->
  exists l, iloc_last w = Ok (Fin l) /\ List.last w NaN = Fin l.
Proof.
  intros Hne Hw. destruct w as [| x rest]; [contradiction |].
  assert (Hin : In (List.last rest x) (x :: rest)).
  { rewrite <- (last_cons_default rest x x). apply last_in. discriminate. }
  destruct (all_finite_In _ Hw Hin) as [l E].
  exists l. simpl iloc_last. rewrite E. split; [reflexivity |].
  rewrite last_cons_default. exact E.
Qed.

Lemma fdiv_three a : (Fin a / Fin 3)%F = Fin (a / 3).
Proof. reflexivity. Qed.

End LevelFacts.

(** Outside [plot_graph], on an empty window, the pivot is not a value:
    [iloc[-1]] raises. *)
Lemma calculate_pivot_empty_window n : calculate_pivot [] n = Raise IndexError.
Proof. unfold calculate_pivot, tail. rewrite skipn_nil. reflexivity. Qed.

(** C4. On a window (the trailing [n] prices) that is not empty and holds
    numbers only, with greatest price [hi], least price [lo] and last price
    [lastp]: the pivot is [(hi + lo + lastp) / 3], and from a pivot [p] the
    levels are [2p - lo], [2p - hi], [p + (hi - lo)] and [p - (hi - lo)].
    On the prices 10, 20, 30 the five values are within 0.01 of 23.33,
    36.67, 16.67, 43.33 and 3.33. *)
Theorem level_formulas :
  (forall (data : DataFrame) (n : nat),
      let w := tail n (col_price data) in
      w <> [] -> all_finite w ->
      exists hi lo lastp,
        is_max (Fin hi) w /\ is_min (Fin lo) w /\ List.last w NaN = Fin lastp
        /\ calculate_pivot data n = Ok (Fin (pivot_of hi lo lastp))
        /\ forall p : Q,
            (calculate_resistance1 (Fin p) data n == Fin (resistance1_of p lo))%F
            /\ (calculate_support1 (Fin p) data n == Fin (support1_of p hi))%F
            /\ (calculate_resistance2 (Fin p) data n == Fin (resistance2_of p hi lo))%F
            /\ (calculate_support2 (Fin p) data n == Fin (support2_of p hi lo))%F)
  /\ (exists pivot,
        calculate_pivot three_prices period = Ok pivot
        /\ within_abs (1 # 100) pivot (2333 # 100)
        /\ within_abs (1 # 100) (calculate_resistance1 pivot three_prices period) (3667 # 100)
        /\ within_abs (1 # 100) (calculate_support1 pivot three_prices period) (1667 # 100)
        /\ within_abs (1 # 100) (calculate_resistance2 pivot three_prices period) (4333 # 100)
        /\ within_abs (1 # 100) (calculate_support2 pivot three_prices period) (333 # 100)).
Proof.
  split.
  - intros data n w Hne Hw.
    destruct (series_max_finite Hne Hw) as (hi & Ehi & Hhi).
    destruct (series_min_finite Hne Hw) as (lo & Elo & Hlo).
    destruct (iloc_last_finite Hne Hw) as (l & El & Hl).
    exists hi, lo, l. repeat (split; [assumption |]).
    split.
    + unfold calculate_pivot. fold w. rewrite El. simpl bind.
      rewrite Ehi, Elo. reflexivity.
    + intros p.
      unfold calculate_resistance1, calculate_support1, calculate_resistance2,
        calculate_support2. fold w. rewrite Ehi, Elo. simpl.
      unfold resistance1_of, support1_of, resistance2_of, support2_of.
      repeat split; ring.
  - exists (Fin (70 # 3)). split; [vm_compute; reflexivity |].
    repeat split; vm_compute; discriminate.
Qed.

Lemma level_formulas_witness :
  all_finite (tail period (col_price three_prices))
  /\ exists hi lo lastp,
      is_max (Fin hi) (tail period (col_price three_prices))
      /\ is_min (Fin lo) (tail period (col_price three_prices))
      /\ List.last (tail period (col_price three_prices)) NaN = Fin lastp
      /\ calculate_pivot three_prices period = Ok (Fin (pivot_of hi lo lastp)).
Proof.
  assert (Hw : all_finite (tail period (col_price three_prices)))
    by (vm_compute; repeat constructor).
  split; [exact Hw |].
  destruct (proj1 level_formulas three_prices period) as (hi & lo & l & H1 & H2 & H3 & H4 & _).
  - vm_compute. discriminate.
  - exact Hw.
  - exists hi, lo, l.
    split; [exact H1 | split; [exact H2 | split; [exact H3 | exact H4]]].
Defined.

(** ** Arithmetic respects equality of floats *)

Section ProperFacts.

Lemma Qis_zero_proper a b : (a == b)%Q -> Qis_zero a = Qis_zero b.
Proof.
  intros E. unfold Qis_zero. apply eq_true_iff_eq.
  rewrite !Qeq_bool_iff, E. reflexivity.
Qed.

Lemma Qis_neg_proper a b : (a == b)%Q -> Qis_neg a = Qis_neg b.
Proof.
  intros E. unfold Qis_neg. f_equal. apply eq_true_iff_eq.
  rewrite !Qle_bool_iff, E. reflexivity.
Qed.

Lemma Qis_zero_true a : Qis_zero a = true <-> (a == 0)%Q.
Proof. apply Qeq_bool_iff. Qed.

Lemma fadd_proper x x' y y' :
  (x == x')%F -> (y == y')%F -> (x + y == x' + y')%F.
Proof.
  destruct x, x', y, y'; simpl; try contradiction; auto.
  intros E1 E2. rewrite E1, E2. reflexivity.
Qed.

Lemma fdiv_proper x x' y y' :
  (x == x')%F -> (y == y')%F -> (x / y == x' / y')%F.
Proof.
  destruct x as [a | | |], x' as [a' | | |], y as [b | | |], y' as [b' | | |];
    simpl; try contradiction; auto; intros E1 E2.
  - rewrite (Qis_zero_proper E1), (Qis_zero_proper E2), (Qis_neg_proper E1).
    destruct (Qis_zero b') eqn:Z.
    + apply feq_refl.
    + simpl. rewrite E1, E2. reflexivity.
  - reflexivity.
  - reflexivity.
  - rewrite (Qis_neg_proper E2). apply feq_refl.
  - rewrite (Qis_neg_proper E2). apply feq_refl.
Qed.

End ProperFacts.

(** ** Running sums *)

Section RunningFacts.

Lemma zip_with_length {A B C : Type} (f : A -> B -> C) l l' :
  List.length (zip_with f l l') = Nat.min (List.length l) (List.length l').
Proof.
  revert l'. induction l as [| x l IH]; intros [| y l']; simpl; auto.
Qed.

Lemma zip_with_map {A B C : Type} (f : B -> B -> C) (g h : A -> B) l :
  zip_with f (map g l) (map h l) = map (fun a => f (g a) (h a)) l.
Proof. induction l as [| a l IH]; simpl; [| rewrite IH]; reflexivity. Qed.

Lemma zip_with_nth_error {A B C : Type} (f : A -> B -> C) l l' i x y :
  nth_error l i = Some x -> nth_error l' i = Some y ->
  nth_error (zip_with f l l') i = Some (f x y).
Proof.
  revert l' i. induction l as [| a l IH]; intros [| b l'] [| i]; simpl;
    try discriminate.
  - intros [= ->] [= ->]. reflexivity.
  - apply IH.
Qed.

Lemma zip_with_Forall2 (l1 l1' l2 l2' : Series) :
  Forall2 feq l1 l1' -> Forall2 feq l2 l2' ->
  Forall2 feq (zip_with fdiv l1 l2) (zip_with fdiv l1' l2').
Proof.
  intros H1. revert l2 l2'. induction H1 as [| x x' l1 l1' Ex _ IH];
    intros l2 l2' H2; simpl.
  - constructor.
  - destruct H2 as [| y y' l2 l2' Ey H2]; constructor.
    + apply fdiv_proper; assumption.
    + apply IH. exact H2.
Qed.

Lemma running_length acc s : List.length (running acc s) = List.length s.
Proof.
  revert acc. induction s as [| x s IH]; intros acc; simpl; [| rewrite IH]; reflexivity.
Qed.

Lemma running_proper s :
  forall acc acc', (acc == acc')%F -> Forall2 feq (running acc s) (running acc' s).
Proof.
  induction s as [| x s IH]; intros acc acc' E; simpl; constructor.
  - apply fadd_proper; [exact E | apply feq_refl].
  - apply IH. apply fadd_proper; [exact E | apply feq_refl].
Qed.

(** Entry [i] of the running sums is the sum, from scratch, of the
    entries [0..i]. *)
Lemma running_prefix s :
  forall acc,
    running acc s
    = map (fun i => fold_left fadd (firstn (S i) s) acc) (seq 0 (List.length s)).
Proof.
  induction s as [| x s IH]; intros acc; [reflexivity |].
  simpl List.length. rewrite <- cons_seq, <- seq_shift.
  cbn [map running]. rewrite map_map. f_equal. apply IH.
Qed.

Lemma np_cumsum_running s :
  all_finite s -> Forall2 feq (np_cumsum s) (running (Fin 0) s).
Proof.
  intros Hs. destruct s as [| x s]; simpl; [constructor |].
  inversion Hs as [| ? ? Hx _]; subst. destruct x as [q | | |]; try discriminate.
  assert (E : (Fin q == Fin 0 + Fin q)%F) by (simpl; ring).
  constructor; [exact E | apply running_proper; exact E].
Qed.

Lemma np_cumsum_length s : List.length (np_cumsum s) = List.length s.
Proof. destruct s; simpl; [| rewrite running_length]; reflexivity. Qed.

Lemma fillna0_finite s : all_finite s -> map fillna0 s = s.
Proof.
  induction 1 as [| x s Hx _ IH]; simpl; [reflexivity |].
  rewrite IH. destruct x; try discriminate. reflexivity.
Qed.

Lemma mask_finite s t :
  all_finite s -> List.length t = List.length s ->
  zip_with (fun x c => if isnan x then NaN else c) s t = t.
Proof.
  intros Hs. revert t. induction Hs as [| x s Hx _ IH]; intros [| y t]; simpl;
    try discriminate; [reflexivity |].
  intros [= Hlen]. rewrite (IH t Hlen). destruct x; try discriminate. reflexivity.
Qed.

(** On a finite series [cumsum] is the plain running sum. *)
Lemma cumsum_finite s : all_finite s -> cumsum s = np_cumsum s.
Proof.
  intros Hs. unfold cumsum. rewrite (fillna0_finite Hs).
  apply mask_finite; [exact Hs | apply np_cumsum_length].
Qed.

End RunningFacts.

(** ** The VWAP column *)

Section VwapFacts.

Lemma VWAP_unfold ohlc :
  VWAP ohlc
  = zip_with fdiv (cumsum (map price_volume ohlc)) (cumsum (map c_volume ohlc)).
Proof.
  unfold VWAP, cumulative_price_volume, cumulative_volume.
  rewrite zip_with_map. reflexivity.
Qed.

Lemma finite_candles_volume ohlc :
  finite_candles ohlc -> all_finite (map c_volume ohlc).
Proof.
  unfold finite_candles, all_finite. intros Hf. apply Forall_map.
  eapply Forall_impl; [| exact Hf]. intros c Hc.
  apply andb_true_iff in Hc. tauto.
Qed.

Lemma finite_candles_price_volume ohlc :
  finite_candles ohlc -> all_finite (map price_volume ohlc).
Proof.
  unfold finite_candles, all_finite. intros Hf. apply Forall_map.
  eapply Forall_impl; [| exact Hf]. intros c Hc.
  apply andb_true_iff in Hc. destruct Hc as [Hcl Hv]. unfold price_volume.
  destruct (c_close c), (c_volume c); try discriminate. reflexivity.
Qed.

Lemma incremental_running ohlc :
  forall a b,
    vwap_incremental_from (Acc a b) ohlc
    = zip_with fdiv (running a (map price_volume ohlc))
                    (running b (map c_volume ohlc)).
Proof.
  induction ohlc as [| c ohlc IH]; intros a b; simpl; [reflexivity |].
  unfold acc_value, acc_step at 1. simpl. f_equal. apply IH.
Qed.

Lemma scratch_running ohlc :
  map (vwap_at ohlc) (seq 0 (List.length ohlc))
  = zip_with fdiv (running (Fin 0) (map price_volume ohlc))
                  (running (Fin 0) (map c_volume ohlc)).
Proof.
  rewrite !running_prefix, !length_map, zip_with_map.
  apply map_ext. intros i. unfold vwap_at, vwap_from_scratch, total.
  rewrite !firstn_map. reflexivity.
Qed.

Lemma incremental_is_scratch ohlc :
  vwap_incremental ohlc = map (vwap_at ohlc) (seq 0 (List.length ohlc)).
Proof.
  unfold vwap_incremental, acc_init. rewrite incremental_running, scratch_running.
  reflexivity.
Qed.

Lemma VWAP_is_incremental ohlc :
  finite_candles ohlc -> Forall2 feq (VWAP ohlc) (vwap_incremental ohlc).
Proof.
  intros Hf. rewrite VWAP_unfold.
  rewrite (cumsum_finite (finite_candles_price_volume Hf)).
  rewrite (cumsum_finite (finite_candles_volume Hf)).
  unfold vwap_incremental, acc_init. rewrite incremental_running.
  apply zip_with_Forall2; apply np_cumsum_running.
  - apply finite_candles_price_volume. exact Hf.
  - apply finite_candles_volume. exact Hf.
Qed.

Lemma feq_within_rel tol x y :
  (0 <= tol)%Q -> (x == y)%F -> within_rel tol x y.
Proof.
  intros Htol. destruct x as [a | | |], y as [b | | |]; unfold within_rel, feq; auto.
  intros E.
  assert (H0 : (a - b == 0)%Q) by (rewrite E; ring).
  rewrite H0. change (Qabs 0) with 0%Q.
  apply Qmult_le_0_compat; [exact Htol | apply Qabs_nonneg].
Qed.

Lemma Forall2_sym_feq (s t : Series) : Forall2 feq s t -> Forall2 feq t s.
Proof.
  induction 1; constructor; [apply feq_sym |]; assumption.
Qed.

Lemma Forall2_within_rel tol (s t : Series) :
  (0 <= tol)%Q -> Forall2 feq s t -> Forall2 (within_rel tol) s t.
Proof.
  intros Htol. induction 1; constructor; [apply feq_within_rel |]; assumption.
Qed.

(** The candles of numeric rows have numeric closes and volumes. *)
Lemma ohlc_data_finite df : numeric df -> finite_candles (ohlc_data df).
Proof.
  intros Hn. unfold finite_candles. apply Forall_forall. intros c Hc.
  pose proof (ohlc_data_numeric c Hn Hc) as Hspec.
  unfold candle_of in Hspec. cbv zeta in Hspec.
  destruct Hspec as (_ & _ & (e & He & Ecl) & _ & _ & Evol).
  unfold finite_candle. rewrite Ecl.
  assert (Hg : numeric (members (c_time c) df)) by (apply numeric_members; exact Hn).
  assert (Hein : In e (members (c_time c) df)).
  { destruct He as (pre & post & -> & _). apply in_elt. }
  unfold numeric in Hg. rewrite Forall_forall in Hg.
  specialize (Hg e Hein). apply andb_true_iff in Hg. destruct Hg as [-> _].
  unfold sum_sizes in Evol.
  rewrite (fold_fadd_finite (numeric_shares (numeric_members (c_time c) Hn))) in Evol.
  destruct (c_volume c); try contradiction. reflexivity.
Qed.

(** What the quotient is when the divisor is zero. *)
Lemma fdiv_zero x y :
  is_finite x = true -> (y == Fin 0)%F ->
  (x / y)%F = NaN \/ (x / y)%F = PInf \/ (x / y)%F = NInf.
Proof.
  destruct x as [a | | |]; try discriminate. intros _.
  destruct y as [b | | |]; simpl; try contradiction. intros E.
  apply Qis_zero_true in E. rewrite E.
  destruct (Qis_zero a); [auto |]. destruct (Qis_neg a); simpl; auto.
Qed.

Lemma running_finite s :
  all_finite s -> forall a, all_finite (running (Fin a) s).
Proof.
  induction 1 as [| x s Hx _ IH]; intros a; simpl; [constructor |].
  destruct x as [q | | |]; try discriminate. simpl.
  constructor; [reflexivity | apply IH].
Qed.

Lemma np_cumsum_finite s : all_finite s -> all_finite (np_cumsum s).
Proof.
  intros Hs. destruct s as [| x s]; simpl; [constructor |].
  inversion Hs as [| ? ? Hx Hs']; subst.
  destruct x as [q | | |]; try discriminate.
  constructor; [reflexivity | apply running_finite; exact Hs'].
Qed.

Lemma VWAP_length ohlc : List.length (VWAP ohlc) = List.length ohlc.
Proof.
  unfold VWAP, cumulative_price_volume, cumulative_volume, cumsum.
  rewrite !zip_with_length, !np_cumsum_length, !length_map, !zip_with_length,
    !length_map. lia.
Qed.

Lemma cumulative_volume_length ohlc :
  List.length (cumulative_volume ohlc) = List.length ohlc.
Proof.
  unfold cumulative_volume, cumsum.
  rewrite zip_with_length, np_cumsum_length, !length_map. lia.
Qed.

Lemma cumulative_price_volume_length ohlc :
  List.length (cumulative_price_volume ohlc) = List.length ohlc.
Proof.
  unfold cumulative_price_volume, cumsum.
  rewrite zip_with_length, np_cumsum_length, !length_map, !zip_with_length,
    !length_map. lia.
Qed.

Lemma cumulative_price_volume_finite ohlc :
  finite_candles ohlc -> all_finite (cumulative_price_volume ohlc).
Proof.
  intros Hf. unfold cumulative_price_volume. rewrite zip_with_map.
  change (fun a => c_close a * c_volume a)%F with price_volume.
  rewrite (cumsum_finite (finite_candles_price_volume Hf)).
  apply np_cumsum_finite, finite_candles_price_volume. exact Hf.
Qed.

End VwapFacts.

(** C6. The incremental VWAP (two running accumulators) is, entry by
    entry, the from-scratch quotient over the candles so far; on candles
    with numeric closes and volumes the VWAP column of the code is equal to
    both as numbers, hence within the relative tolerance 1e-8; the
    candles resampled from numeric rows are such candles. *)
Theorem vwap_refinement :
  (forall ohlc,
      vwap_incremental ohlc = map (vwap_at ohlc) (seq 0 (List.length ohlc)))
  /\ (forall ohlc, finite_candles ohlc ->
        Forall2 feq (VWAP ohlc) (map (vwap_at ohlc) (seq 0 (List.length ohlc)))
        /\ Forall2 (within_rel (1 # 100000000)) (vwap_incremental ohlc) (VWAP ohlc))
  /\ (forall df, numeric df -> finite_candles (ohlc_data df)).
Proof.
  split; [apply incremental_is_scratch | split; [| apply ohlc_data_finite]].
  intros ohlc Hf. pose proof (VWAP_is_incremental Hf) as Hv. split.
  - rewrite <- incremental_is_scratch. exact Hv.
  - apply Forall2_within_rel; [discriminate | apply Forall2_sym_feq; exact Hv].
Qed.

Lemma vwap_refinement_witness :
  finite_candles (ohlc_data five_ticks)
  /\ Forall2 feq (VWAP (ohlc_data five_ticks))
       (map (vwap_at (ohlc_data five_ticks))
            (seq 0 (List.length (ohlc_data five_ticks)))).
Proof.
  assert (Hn : numeric five_ticks) by (repeat constructor).
  pose proof (proj2 (proj2 vwap_refinement) five_ticks Hn) as Hf.
  split; [exact Hf |].
  apply (proj1 (proj2 vwap_refinement) (ohlc_data five_ticks) Hf).
Defined.

(** C8 as stated fails. One tick of size zero gives one candle of volume
    zero; lines 144-146 on that candle give a VWAP entry that is there
    and is [nan], not an absent one; and the call of [plot_graph] on the
    frame reports no absent VWAP either, it raises. *)
Lemma zero_volume_vwap_is_nan :
  ohlc_data zero_size = [Candle 0 (Fin 10) (Fin 10) (Fin 10) (Fin 10) (Fin 0)]
  /\ cumulative_volume (ohlc_data zero_size) = [Fin 0]
  /\ VWAP (ohlc_data zero_size) = [NaN]
  /\ ~ absent_at_zero_volume (ohlc_data zero_size)
  /\ plot_graph zero_size = Raise TypeError.
Proof.
  split; [vm_compute; reflexivity |]. split; [vm_compute; reflexivity |].
  split; [vm_compute; reflexivity |]. split; [| vm_compute; reflexivity].
  intros Habs. specialize (Habs 0%nat (Fin 0) eq_refl (feq_refl (Fin 0))).
  discriminate Habs.
Qed.

(** C8, amended. Lines 144-146 have no guard on the cumulative volume:
    on candles with numeric close and volume, wherever the cumulative
    volume is zero the VWAP column they compute has its entry, and the
    entry is [nan] or an infinity, neither absent nor zero. *)
Theorem zero_volume_vwap_not_guarded ohlc i cv :
  finite_candles ohlc ->
  nth_error (cumulative_volume ohlc) i = Some cv ->
  (cv == Fin 0)%F ->
  exists v, nth_error (VWAP ohlc) i = Some v
            /\ (v = NaN \/ v = PInf \/ v = NInf).
Proof.
  intros Hf Hcv Hzero.
  assert (Hi : (i < List.length ohlc)%nat).
  { rewrite <- cumulative_volume_length. apply nth_error_Some. congruence. }
  destruct (nth_error (cumulative_price_volume ohlc) i) as [cpv |] eqn:Hcpv.
  - exists (cpv / cv)%F. split.
    + unfold VWAP. apply zip_with_nth_error; assumption.
    + apply fdiv_zero; [| exact Hzero].
      pose proof (cumulative_price_volume_finite Hf) as Hall.
      unfold all_finite in Hall. rewrite Forall_forall in Hall.
      apply Hall. eapply nth_error_In. exact Hcpv.
  - apply nth_error_None in Hcpv. rewrite cumulative_price_volume_length in Hcpv. lia.
Qed.

Lemma zero_volume_vwap_not_guarded_witness :
  exists v, nth_error (VWAP (ohlc_data zero_size)) 0 = Some v
            /\ (v = NaN \/ v = PInf \/ v = NInf).
Proof.
  apply (@zero_volume_vwap_not_guarded (ohlc_data zero_size) 0%nat (Fin 0)).
  - repeat constructor.
  - reflexivity.
  - reflexivity.
Defined.

(** ** Resampling *)



(** The candles of [five_ticks]: the bucket at 30 s has no row and no
    candle; the row that arrived last is the close of the first candle. *)
Example ohlc_data_five_ticks :
  ohlc_data five_ticks
  = [Candle 0 (Fin 10) (Fin 20) (Fin 8) (Fin 8) (Fin 4);
     Candle 15000000000 (Fin 7) (Fin 7) (Fin 7) (Fin 7) (Fin 3);
     Candle 45000000000 (Fin 5) (Fin 5) (Fin 5) (Fin 5) (Fin 1)].
Proof. vm_compute. reflexivity. Qed.

(** C9. Every candle that resampling produces has
    [low <= open <= high] and [low <= close <= high], whatever the rows. *)
Theorem ohlc_consistency :
  forall df, Forall consistent (ohlc_data df).
Proof.
  intros df. apply Forall_forall. intros c Hc.
  apply ohlc_data_In in Hc. destruct Hc as (k & _ & -> & Hc).
  apply agg_bin_consistent. exact Hc.
Qed.

(** ** Levels on a flat window *)

(** C10. On a window that is not empty, holds numbers only and has its
    greatest price equal to its least, the pivot is returned (nothing is
    raised) and both second levels are equal to it. *)
Theorem flat_window_collapse (data : DataFrame) (n : nat) :
  let w := tail n (col_price data) in
  w <> [] -> all_finite w ->
  (series_max w == series_min w)%F ->
  exists pivot,
    calculate_pivot data n = Ok pivot
    /\ is_finite pivot = true
    /\ (calculate_resistance2 pivot data n == pivot)%F
    /\ (calculate_support2 pivot data n == pivot)%F.
Proof.
  intros w Hne Hw Hflat.
  destruct (series_max_finite Hne Hw) as (hi & Ehi & _).
  destruct (series_min_finite Hne Hw) as (lo & Elo & _).
  destruct (iloc_last_finite Hne Hw) as (l & El & _).
  exists (Fin ((hi + lo + l) / 3)).
  unfold calculate_pivot, calculate_resistance2, calculate_support2. fold w.
  rewrite El, Ehi, Elo in *. simpl in Hflat. simpl.
  repeat split; rewrite Hflat; ring.
Qed.

Lemma flat_window_collapse_witness :
  exists pivot,
    calculate_pivot flat_prices period = Ok pivot
    /\ is_finite pivot = true
    /\ (calculate_resistance2 pivot flat_prices period == pivot)%F
    /\ (calculate_support2 pivot flat_prices period == pivot)%F.
Proof.
  apply (@flat_window_collapse flat_prices period).
  - discriminate.
  - repeat constructor.
  - vm_compute. reflexivity.
Defined.

(** ** [plot_graph] *)

Section PlotFacts.

Lemma call_pivot_one_argument data :
  call def_calculate_pivot [AFrame data] = Raise TypeError.
Proof. reflexivity. Qed.

Lemma call_level_two_arguments f pivot data :
  call (def_level f) [AFloat pivot; AFrame data] = Raise TypeError.
Proof. reflexivity. Qed.

Lemma draw_raises ohlc lv vwap : draw ohlc lv vwap = Raise NameError.
Proof. reflexivity. Qed.

Lemma plot_graph_cases md :
  plot_graph md = if empty (ohlc_data md) then Ok None else Raise TypeError.
Proof.
  unfold plot_graph. destruct md as [| r md]; [reflexivity |].
  cbn [empty negb]. destruct (ohlc_data (r :: md)); reflexivity.
Qed.

End PlotFacts.

(** C1. On a frame whose resampling gives at least one candle (any frame
    of numeric rows that is not empty is one) [plot_graph] raises
    [TypeError]: the call of [calculate_pivot] passes one argument for two
    parameters, and the other four calls two for three. The drawing stage
    would raise [NameError] at [ax1] whatever it is given. So no call of
    [plot_graph] hands a chart to the placeholder. *)
Theorem plot_graph_raises :
  (forall md, ohlc_data md <> [] -> plot_graph md = Raise TypeError)
  /\ (forall md, numeric md -> md <> [] -> plot_graph md = Raise TypeError)
  /\ (forall data, call def_calculate_pivot [AFrame data] = Raise TypeError)
  /\ (forall pivot data,
        call def_calculate_resistance1 [AFloat pivot; AFrame data] = Raise TypeError
        /\ call def_calculate_support1 [AFloat pivot; AFrame data] = Raise TypeError
        /\ call def_calculate_resistance2 [AFloat pivot; AFrame data] = Raise TypeError
        /\ call def_calculate_support2 [AFloat pivot; AFrame data] = Raise TypeError)
  /\ (forall ohlc lv vwap, draw ohlc lv vwap = Raise NameError)
  /\ (forall md ch, plot_graph md <> Ok (Some ch)).
Proof.
  assert (Hraise : forall md, ohlc_data md <> [] -> plot_graph md = Raise TypeError).
  { intros md Hne. rewrite plot_graph_cases.
    destruct (ohlc_data md); [contradiction | reflexivity]. }
  split; [exact Hraise |]. split; [| split; [| split; [| split]]].
  - intros md Hn Hne. apply Hraise. apply ohlc_data_nonempty; assumption.
  - apply call_pivot_one_argument.
  - intros pivot data. repeat split; apply call_level_two_arguments.
  - apply draw_raises.
  - intros md ch. rewrite plot_graph_cases.
    destruct (empty (ohlc_data md)); discriminate.
Qed.

Lemma plot_graph_raises_witness :
  ohlc_data three_prices <> [] /\ plot_graph three_prices = Raise TypeError.
Proof.
  assert (Hne : ohlc_data three_prices <> []) by (vm_compute; discriminate).
  split; [exact Hne |].
  apply (proj1 plot_graph_raises three_prices Hne).
Defined.

(** C5. On the empty frame, and more generally whenever the window of the
    levels is empty or resampling gives no candle, [plot_graph] returns
    without raising and without drawing: the snapshot has no candles and no
    levels. *)
Theorem empty_frame_no_snapshot :
  (exists out, plot_graph [] = Ok out
               /\ snapshot_candles out = [] /\ snapshot_indicators out = None)
  /\ (forall md, tail period (col_price md) = [] ->
        exists out, plot_graph md = Ok out
                    /\ snapshot_candles out = [] /\ snapshot_indicators out = None)
  /\ (forall md, ohlc_data md = [] ->
        exists out, plot_graph md = Ok out
                    /\ snapshot_candles out = [] /\ snapshot_indicators out = None).
Proof.
  split; [exists None; repeat split |]. split.
  - intros md Hw. exists None. repeat split.
    destruct md as [| r md]; [reflexivity |]. exfalso.
    assert (Hlen : List.length (tail period (col_price (r :: md))) = O)
      by (rewrite Hw; reflexivity).
    rewrite tail_length in Hlen. unfold col_price in Hlen.
    rewrite length_map in Hlen. simpl List.length in Hlen.
    assert (Hp : (1 <= period)%nat) by (unfold period; apply Nat.leb_le; vm_compute; reflexivity).
    lia.
  - intros md Hnone. exists None. repeat split.
    rewrite plot_graph_cases, Hnone. reflexivity.
Qed.

Lemma empty_frame_no_snapshot_witness :
  exists out, plot_graph [] = Ok out
              /\ snapshot_candles out = [] /\ snapshot_indicators out = None.
Proof.
  apply (proj2 (proj2 empty_frame_no_snapshot) []). reflexivity.
Defined.

(** * Further properties *)

Import MoreExamples.

(** ** The frame as a sliding window *)

Section WindowFacts.

Lemma store_last cap (md : DataFrame) r d :
  (1 <= cap)%nat -> List.last (store cap md r) d = r.
Proof.
  intros Hcap. rewrite store_is_tail. unfold tail.
  rewrite length_app. simpl List.length.
  rewrite skipn_app.
  replace (List.length md + 1 - cap - List.length md)%nat with O by lia.
  simpl skipn. apply last_last.
Qed.

Lemma store_In cap (md : DataFrame) r x :
  In x (store cap md r) -> In x md \/ x = r.
Proof.
  rewrite store_is_tail. intros Hx.
  assert (Hin : In x (md ++ [r])).
  { rewrite <- (tail_is_suffix cap (md ++ [r])). apply in_or_app. right. exact Hx. }
  apply in_app_or in Hin. destruct Hin as [Hin | [<- | []]]; auto.
Qed.

End WindowFacts.

(** X2. With room for at least one row, the row just appended is always
    the last row of the frame; a frame within its bound grows by one row
    until it is full, and a full frame drops exactly its first row. *)
Theorem store_slides (cap : nat) (md : DataFrame) (r : row) :
  (1 <= cap)%nat -> (List.length md <= cap)%nat ->
  (forall d, List.last (store cap md r) d = r)
  /\ List.length (store cap md r) = Nat.min cap (S (List.length md))
  /\ ((List.length md < cap)%nat -> store cap md r = md ++ [r])
  /\ (List.length md = cap -> store cap md r = skipn 1 md ++ [r]).
Proof.
  intros Hcap Hlen. split; [| split; [| split]].
  - intros d. apply store_last. exact Hcap.
  - rewrite store_is_tail, tail_length, length_app. simpl. lia.
  - intros Hlt. rewrite store_is_tail. apply tail_all.
    rewrite length_app. simpl. lia.
  - intros Hfull. rewrite store_is_tail. unfold tail.
    rewrite length_app. simpl List.length.
    replace (List.length md + 1 - cap)%nat with 1%nat by lia.
    rewrite skipn_app.
    destruct md as [| x md]; [simpl in Hfull; lia |].
    simpl. reflexivity.
Qed.

Lemma store_slides_witness :
  store 2 [tick 0 10 1; tick 1 20 1] (tick 2 30 1)
  = skipn 1 [tick 0 10 1; tick 1 20 1] ++ [tick 2 30 1].
Proof.
  apply (@store_slides 2 [tick 0 10 1; tick 1 20 1] (tick 2 30 1)).
  - apply Nat.leb_le. reflexivity.
  - apply Nat.leb_le. reflexivity.
  - reflexivity.
Defined.

(** ** A tick followed by a refresh *)

Section RefreshFacts.

Lemma numeric_store cap md r :
  numeric md -> numeric_row r = true -> numeric (store cap md r).
Proof.
  unfold numeric. rewrite !Forall_forall. intros Hmd Hr x Hx.
  apply store_In in Hx. destruct Hx as [Hx | ->]; auto.
Qed.

Lemma MAX_ROWS_pos : (1 <= MAX_ROWS)%nat.
Proof. apply Nat.leb_le. vm_compute. reflexivity. Qed.

Lemma store_nonempty cap (md : DataFrame) r : (1 <= cap)%nat -> store cap md r <> [].
Proof.
  intros Hcap E. pose proof (store_last md r r Hcap) as Hl.
  assert (Hlen : List.length (store cap md r) = O) by (rewrite E; reflexivity).
  rewrite store_is_tail, tail_length, length_app in Hlen. simpl in Hlen. lia.
Qed.

Lemma plot_after_feed `{Builtins} cap msgs :
  (1 <= cap)%nat -> numeric (admitted msgs) -> admitted msgs <> [] ->
  plot_graph (feed cap msgs []) = Raise TypeError.
Proof.
  intros Hcap Hn Hne. rewrite feed_is_store_all, store_all_empty.
  rewrite plot_graph_cases.
  destruct (ohlc_data (tail cap (admitted msgs))) eqn:E; [| reflexivity].
  exfalso. revert E. apply ohlc_data_nonempty.
  - unfold numeric in *. rewrite Forall_forall in *. intros x Hx.
    apply Hn. rewrite <- (tail_is_suffix cap (admitted msgs)).
    apply in_or_app. right. exact Hx.
  - intros E.
    assert (Hlen : List.length (tail cap (admitted msgs)) = O)
      by (rewrite E; reflexivity).
    rewrite tail_length in Hlen.
    destruct (admitted msgs); [contradiction | simpl in Hlen; lia].
Qed.

End RefreshFacts.

(** X3. Once a message with a numeric price and size has been stored in a
    frame of numeric rows, the next [plot_graph] raises [TypeError]. From
    the start of the program: after a run of messages whose stored rows
    are numeric, [plot_graph] raises as soon as one row has been stored,
    and returns without drawing as long as none has. *)
Theorem tick_then_plot_raises (B : Builtins) :
  (forall (data : json) (md : DataFrame) (r : row),
      numeric md -> new_row data = Ok (Some r) -> numeric_row r = true ->
      on_message data md = (Ok tt, store MAX_ROWS md r)
      /\ plot_graph (snd (on_message data md)) = Raise TypeError)
  /\ (forall msgs : list json,
        numeric (admitted msgs) ->
        (admitted msgs <> [] ->
         plot_graph (feed MAX_ROWS msgs []) = Raise TypeError)
        /\ (admitted msgs = [] ->
            plot_graph (feed MAX_ROWS msgs []) = Ok None)).
Proof.
  split.
  - intros data md r Hmd Hnew Hr.
    assert (Hstep : on_message data md = (Ok tt, store MAX_ROWS md r)).
    { unfold on_message, on_message_with. rewrite Hnew. reflexivity. }
    split; [exact Hstep |]. rewrite Hstep. simpl snd.
    rewrite plot_graph_cases.
    destruct (ohlc_data (store MAX_ROWS md r)) eqn:E; [| reflexivity].
    exfalso. revert E. apply ohlc_data_nonempty.
    + apply numeric_store; assumption.
    + apply store_nonempty, MAX_ROWS_pos.
  - intros msgs Hn. split.
    + intros Hne. apply plot_after_feed; [apply MAX_ROWS_pos | |]; assumption.
    + intros E. rewrite feed_is_store_all, store_all_empty, E. reflexivity.
Qed.

Lemma tick_then_plot_raises_witness :
  @new_row builtins good_message
  = Ok (Some (Row 0 (JStr "ETH-USD") (Fin (312345 # 100)) (Fin (5 # 10)) (JStr "buy")))
  /\ plot_graph (snd (@on_message builtins good_message three_prices))
     = Raise TypeError.
Proof.
  assert (Hnew : @new_row builtins good_message
    = Ok (Some (Row 0 (JStr "ETH-USD") (Fin (312345 # 100)) (Fin (5 # 10)) (JStr "buy"))))
    by (vm_compute; reflexivity).
  split; [exact Hnew |].
  refine (proj2 (proj1 (tick_then_plot_raises builtins)
                   good_message three_prices _ _ Hnew _)).
  - repeat constructor.
  - reflexivity.
Defined.

(** ** The window of the levels *)

Section TrailingFacts.

Lemma tail_nil_iff {A : Type} n (l : list A) : tail n l = [] <-> l = [] \/ n = O.
Proof.
  split.
  - intros E. assert (Hlen : List.length (tail n l) = O) by (rewrite E; reflexivity).
    rewrite tail_length in Hlen. destruct l; [auto |]. simpl in Hlen. right. lia.
  - intros [-> | ->].
    + unfold tail. apply skipn_nil.
    + unfold tail. rewrite Nat.sub_0_r. apply skipn_all.
Qed.

Lemma tail_app_recent {A : Type} n (older recent : list A) :
  (n <= List.length recent)%nat -> tail n (older ++ recent) = tail n recent.
Proof.
  intros Hn. unfold tail. rewrite length_app, skipn_app.
  rewrite skipn_all2 by lia. simpl. f_equal. lia.
Qed.

Lemma col_price_nil_iff (data : DataFrame) : col_price data = [] <-> data = [].
Proof.
  unfold col_price. split; [apply map_eq_nil | intros ->; reflexivity].
Qed.

Lemma window_nil_iff (data : DataFrame) n :
  tail n (col_price data) = [] <-> data = [] \/ n = O.
Proof. rewrite tail_nil_iff, col_price_nil_iff. reflexivity. Qed.

Lemma calculate_pivot_window data data' n n' :
  tail n (col_price data) = tail n' (col_price data') ->
  calculate_pivot data n = calculate_pivot data' n'.
Proof. unfold calculate_pivot. intros ->. reflexivity. Qed.

End TrailingFacts.

(** X4. [calculate_pivot] raises [IndexError] exactly when its window is
    empty, that is on an empty frame or with a period of zero, and returns
    a value otherwise; on an empty window the other four functions raise
    nothing and return [nan], whatever pivot they are given. *)
Theorem pivot_raises_iff (data : DataFrame) (n : nat) :
  (calculate_pivot data n = Raise IndexError <-> data = [] \/ n = O)
  /\ (data <> [] -> n <> O -> exists p, calculate_pivot data n = Ok p)
  /\ (data = [] \/ n = O ->
      forall p,
        calculate_resistance1 p data n = NaN
        /\ calculate_support1 p data n = NaN
        /\ calculate_resistance2 p data n = NaN
        /\ calculate_support2 p data n = NaN).
Proof.
  pose proof (window_nil_iff data n) as Hw.
  unfold calculate_pivot, calculate_resistance1, calculate_support1,
    calculate_resistance2, calculate_support2.
  destruct (tail n (col_price data)) as [| x w] eqn:E.
  - split; [| split].
    + split; [intros _; apply Hw; reflexivity | reflexivity].
    + intros Hd Hn. exfalso. destruct (proj1 Hw eq_refl); contradiction.
    + intros _ p. unfold series_max, series_min. simpl.
      unfold fsub. simpl. destruct p; simpl; repeat split; reflexivity.
  - split; [| split].
    + split; [discriminate |]. intros Hor. apply Hw in Hor. discriminate.
    + intros _ _. simpl. eexists. reflexivity.
    + intros Hor. apply Hw in Hor. discriminate.
Qed.

Lemma pivot_raises_iff_witness :
  exists p, calculate_pivot three_prices period = Ok p.
Proof.
  apply (proj1 (proj2 (pivot_raises_iff three_prices period))).
  - discriminate.
  - intros E. apply (f_equal (Nat.leb 1)) in E. vm_compute in E. discriminate.
Defined.

(** X5. The levels look at the last [n] rows only: rows older than the
    window change none of them; and a frame with at most [n] rows is its
    own window, so that its levels are those of the whole frame. *)
Theorem levels_use_trailing_rows :
  (forall (older recent : DataFrame) (n : nat),
      (n <= List.length recent)%nat ->
      calculate_pivot (older ++ recent) n = calculate_pivot recent n
      /\ (forall p,
            calculate_resistance1 p (older ++ recent) n
            = calculate_resistance1 p recent n
            /\ calculate_support1 p (older ++ recent) n
               = calculate_support1 p recent n
            /\ calculate_resistance2 p (older ++ recent) n
               = calculate_resistance2 p recent n
            /\ calculate_support2 p (older ++ recent) n
               = calculate_support2 p recent n))
  /\ (forall (data : DataFrame) (n : nat),
        (List.length data <= n)%nat ->
        tail n (col_price data) = col_price data
        /\ calculate_pivot data n = calculate_pivot data (List.length data)).
Proof.
  split.
  - intros older recent n Hn.
    assert (Hw : tail n (col_price (older ++ recent)) = tail n (col_price recent)).
    { unfold col_price. rewrite map_app. apply tail_app_recent.
      rewrite length_map. exact Hn. }
    split.
    + apply calculate_pivot_window. exact Hw.
    + intros p. unfold calculate_resistance1, calculate_support1,
        calculate_resistance2, calculate_support2. rewrite Hw. repeat split.
  - intros data n Hle.
    assert (Hw : forall m, (List.length data <= m)%nat ->
                           tail m (col_price data) = col_price data).
    { intros m Hm. apply tail_all. unfold col_price. rewrite length_map. exact Hm. }
    split; [apply Hw; exact Hle |].
    apply calculate_pivot_window. rewrite (Hw n Hle), (Hw _ (Nat.le_refl _)).
    reflexivity.
Qed.

Lemma levels_use_trailing_rows_witness :
  calculate_pivot ([tick 0 99 1] ++ flat_prices) 2 = calculate_pivot flat_prices 2
  /\ calculate_pivot flat_prices period
     = calculate_pivot flat_prices (List.length flat_prices).
Proof.
  destruct levels_use_trailing_rows as [Hold Hshort]. split.
  - apply (Hold [tick 0 99 1] flat_prices 2%nat).
    apply Nat.leb_le. reflexivity.
  - apply (Hshort flat_prices period).
    apply Nat.leb_le. vm_compute. reflexivity.
Defined.

(** ** How many candles *)

Section CountFacts.

Lemma apart_NoDup ohlc : StronglySorted apart ohlc -> NoDup (map c_time ohlc).
Proof.
  induction 1 as [| c ohlc _ IH Hc]; simpl; constructor; [| exact IH].
  intros Hin. apply in_map_iff in Hin. destruct Hin as (c' & E & Hc').
  rewrite Forall_forall in Hc. specialize (Hc c' Hc').
  unfold apart in Hc. pose proof BUCKET_NS_pos. lia.
Qed.

Lemma candle_time_of_row df c :
  In c (ohlc_data df) ->
  In (c_time c) (map (fun r => bucket_of (time r) * BUCKET_NS) df).
Proof.
  intros Hc. destruct (candle_has_row df c Hc) as (Hmod & r & Hr & Hlo & Hhi).
  apply in_map_iff. exists r. split; [| exact Hr].
  pose proof BUCKET_NS_pos as Hpos.
  apply Z.mod_divide in Hmod; [| lia]. destruct Hmod as [k Hk].
  rewrite Hk. f_equal. apply bucket_of_spec. lia.
Qed.

End CountFacts.

(** X8. Resampling never gives more candles than the frame has rows, and
    no two candles share a bucket. *)
Theorem candles_at_most_rows (df : DataFrame) :
  (List.length (ohlc_data df) <= List.length df)%nat
  /\ NoDup (map c_time (ohlc_data df)).
Proof.
  pose proof (apart_NoDup (ohlc_data_apart df)) as Hnd. split; [| exact Hnd].
  rewrite <- (length_map c_time (ohlc_data df)).
  rewrite <- (length_map (fun r => bucket_of (time r) * BUCKET_NS) df).
  apply NoDup_incl_length; [exact Hnd |].
  intros t Ht. apply in_map_iff in Ht. destruct Ht as (c & <- & Hc).
  apply candle_time_of_row. exact Hc.
Qed.

(** ** Rows that arrive out of order *)

Section OrderOfArrivalFacts.

Lemma NoDup_map_eq {A K : Type} (f : A -> K) l a b :
  NoDup (map f l) -> In a l -> In b l -> f a = f b -> a = b.
Proof.
  induction l as [| x l IH]; simpl; [contradiction |].
  intros Hnd Ha Hb E. inversion Hnd as [| ? ? Hx Hnd']; subst.
  destruct Ha as [-> | Ha], Hb as [-> | Hb]; auto.
  - exfalso. apply Hx. rewrite E. apply in_map. exact Hb.
  - exfalso. apply Hx. rewrite <- E. apply in_map. exact Ha.
Qed.

(** Two sorted frames with the same rows, no two rows at the same time,
    are the same frame. *)
Lemma sorted_unique l :
  forall l',
    StronglySorted by_time l -> StronglySorted by_time l' ->
    Permutation l l' -> NoDup (map time l) -> l = l'.
Proof.
  induction l as [| x l IH]; intros l' Hs Hs' Hp Hnd.
  - symmetry. apply Permutation_nil. exact Hp.
  - destruct l' as [| y l'].
    + apply Permutation_sym, Permutation_nil in Hp. discriminate.
    + assert (Hy : In y (x :: l))
        by (eapply Permutation_in; [symmetry; exact Hp | left; reflexivity]).
      assert (Hx : In x (y :: l'))
        by (eapply Permutation_in; [exact Hp | left; reflexivity]).
      inversion Hs as [| ? ? Hsl Hxl]; subst.
      inversion Hs' as [| ? ? Hsl' Hyl']; subst.
      rewrite Forall_forall in Hxl, Hyl'.
      assert (Exy : time x = time y).
      { assert (time x <= time y)
          by (destruct Hy as [<- | Hy]; [lia | apply Hxl; exact Hy]).
        assert (time y <= time x)
          by (destruct Hx as [<- | Hx]; [lia | apply Hyl'; exact Hx]).
        lia. }
      assert (E : x = y)
        by (apply (NoDup_map_eq time (x :: l)); auto; left; reflexivity).
      subst y. f_equal. apply IH; try assumption.
      * eapply Permutation_cons_inv. exact Hp.
      * inversion Hnd; assumption.
Qed.

Lemma sort_by_time_unique df df' :
  Permutation df df' -> NoDup (map time df) ->
  sort_by_time df = sort_by_time df'.
Proof.
  intros Hp Hnd. apply sorted_unique.
  - apply sort_by_time_sorted.
  - apply sort_by_time_sorted.
  - rewrite <- (sort_by_time_perm df), <- (sort_by_time_perm df'). exact Hp.
  - eapply Permutation_NoDup; [| exact Hnd].
    apply Permutation_map, sort_by_time_perm.
Qed.

End OrderOfArrivalFacts.

Section SortedAlready.

Lemma sort_by_time_sorted_id l :
  StronglySorted by_time l -> sort_by_time l = l.
Proof.
  induction 1 as [| x l _ IH Hx]; simpl; [reflexivity |].
  rewrite IH. apply insert_by_time_front.
  rewrite Forall_forall in Hx. exact Hx.
Qed.

End SortedAlready.

(** X9. The candles do not depend on the order in which the rows arrived,
    as long as no two rows have the same time: a frame and any
    rearrangement of it resample to the same candles. And for every frame,
    sorting the rows by time beforehand (rows at the same time kept in
    arrival order) changes no candle. *)
Theorem arrival_order_irrelevant :
  (forall df df' : DataFrame,
      Permutation df df' -> NoDup (map time df) ->
      ohlc_data df = ohlc_data df')
  /\ (forall df : DataFrame, ohlc_data (sort_by_time df) = ohlc_data df).
Proof.
  split.
  - intros df df' Hp Hnd. unfold ohlc_data, resample_agg.
    rewrite (sort_by_time_unique Hp Hnd). reflexivity.
  - intros df. unfold ohlc_data, resample_agg.
    rewrite (sort_by_time_sorted_id (sort_by_time_sorted df)). reflexivity.
Qed.

Lemma arrival_order_irrelevant_witness :
  ohlc_data five_ticks = ohlc_data five_ticks_in_order.
Proof.
  apply (proj1 arrival_order_irrelevant).
  - change five_ticks_in_order with (sort_by_time five_ticks).
    apply sort_by_time_perm.
  - unfold five_ticks. simpl.
    repeat (constructor; [simpl; intuition discriminate |]). constructor.
Defined.

(** ** Earlier VWAP entries never change *)

Section PrefixFacts.

Lemma zip_with_firstn {A B C : Type} (f : A -> B -> C) k l l' :
  zip_with f (firstn k l) (firstn k l') = firstn k (zip_with f l l').
Proof.
  revert l l'. induction k as [| k IH]; intros [| x l] [| y l']; simpl;
    try reflexivity.
  f_equal. apply IH.
Qed.

Lemma running_firstn k s : forall acc,
  running acc (firstn k s) = firstn k (running acc s).
Proof.
  revert s. induction k as [| k IH]; intros [| x s] acc; simpl; try reflexivity.
  f_equal. apply IH.
Qed.

Lemma np_cumsum_firstn k s : np_cumsum (firstn k s) = firstn k (np_cumsum s).
Proof.
  destruct k as [| k], s as [| x s]; simpl; try reflexivity.
  f_equal. apply running_firstn.
Qed.

Lemma cumsum_firstn k s : cumsum (firstn k s) = firstn k (cumsum s).
Proof.
  unfold cumsum. rewrite <- firstn_map, np_cumsum_firstn. apply zip_with_firstn.
Qed.

End PrefixFacts.

Section PrefixCore.

Lemma VWAP_firstn (ohlc : list candle) (k : nat) :
  VWAP (firstn k ohlc) = firstn k (VWAP ohlc).
Proof.
  unfold VWAP, cumulative_price_volume, cumulative_volume.
  rewrite <- !firstn_map, zip_with_firstn, !cumsum_firstn.
  apply zip_with_firstn.
Qed.

End PrefixCore.

(** X12. The VWAP of the first [k] candles is the first [k] entries of
    the VWAP of all of them: candles that come later never change an
    earlier entry. *)
Theorem vwap_prefix (ohlc : list candle) (k : nat) :
  VWAP (firstn k ohlc) = firstn k (VWAP ohlc).
Proof. apply VWAP_firstn. Qed.

(** ** Frames that follow one another *)

Section SeparatedFacts.

Lemma insert_by_time_app x (l l' : DataFrame) :
  (forall y, In y l' -> time x <= time y) ->
  insert_by_time x (l ++ l') = insert_by_time x l ++ l'.
Proof.
  intros Hl'. induction l as [| a l IH]; simpl.
  - apply insert_by_time_front. exact Hl'.
  - destruct (time x <=? time a); [reflexivity |]. simpl. rewrite IH. reflexivity.
Qed.

Lemma sort_by_time_app (df df' : DataFrame) :
  (forall x y, In x df -> In y df' -> time x <= time y) ->
  sort_by_time (df ++ df') = sort_by_time df ++ sort_by_time df'.
Proof.
  intros Hsep. induction df as [| x df IH]; simpl; [reflexivity |].
  rewrite IH by (intros a b Ha Hb; apply Hsep; [right |]; assumption).
  apply insert_by_time_app. intros y Hy. apply -> sort_by_time_In in Hy.
  apply Hsep; [left; reflexivity | exact Hy].
Qed.

Lemma agg_bin_group s s' k :
  filter (in_bucket k) s = filter (in_bucket k) s' -> agg_bin s k = agg_bin s' k.
Proof. unfold agg_bin. intros ->. reflexivity. Qed.

Lemma agg_bin_no_rows s k :
  filter (in_bucket k) s = [] -> complete (agg_bin s k) = false.
Proof. unfold agg_bin, complete. intros ->. reflexivity. Qed.

Lemma filter_nil_iff {A : Type} (p : A -> bool) l :
  (forall x, In x l -> p x = false) -> filter p l = [].
Proof.
  induction l as [| a l IH]; intros Hp; simpl; [reflexivity |].
  rewrite (Hp a (or_introl eq_refl)). apply IH.
  intros x Hx. apply Hp. right. exact Hx.
Qed.

(** The bins of a frame that is not empty: a run of consecutive
    integers. *)
Lemma bins_run r rest :
  bins (r :: rest)
  = map (fun i => bucket_of (time r) + Z.of_nat i)
        (seq 0 (Z.to_nat (bucket_of (time (List.last rest r))
                          - bucket_of (time r) + 1))).
Proof. reflexivity. Qed.

Lemma seq_from n m : seq n m = map (Nat.add n) (seq 0 m).
Proof.
  induction n as [| n IH]; simpl.
  - symmetry. apply map_id.
  - rewrite <- seq_shift, IH, map_map. reflexivity.
Qed.

Lemma run_app k n m :
  map (fun i => k + Z.of_nat i) (seq 0 (n + m))
  = map (fun i => k + Z.of_nat i) (seq 0 n)
    ++ map (fun i => (k + Z.of_nat n) + Z.of_nat i) (seq 0 m).
Proof.
  rewrite seq_app, map_app. f_equal. simpl.
  rewrite (seq_from n m), map_map. apply map_ext. intros i. lia.
Qed.

Lemma last_app_cons {A : Type} (l l' : list A) x d :
  List.last (l ++ x :: l') d = List.last l' x.
Proof.
  induction l as [| a l IH]; simpl.
  - apply last_cons_default.
  - destruct (l ++ x :: l') eqn:E; [destruct l; discriminate |].
    exact IH.
Qed.

Lemma in_run k n z :
  In z (map (fun i => k + Z.of_nat i) (seq 0 n)) <-> k <= z < k + Z.of_nat n.
Proof.
  rewrite in_map_iff. split.
  - intros (i & <- & Hi). apply in_seq in Hi. lia.
  - intros Hz. exists (Z.to_nat (z - k)). split; [lia |]. apply in_seq. lia.
Qed.

Lemma filter_bucket_outside (s : DataFrame) k :
  (forall x, In x s -> bucket_of (time x) <> k) -> filter (in_bucket k) s = [].
Proof.
  intros Hout. apply filter_nil_iff. intros x Hx. unfold in_bucket.
  apply Z.eqb_neq. apply Hout. exact Hx.
Qed.

Lemma sorted_buckets r rest :
  StronglySorted by_time (r :: rest) ->
  forall x, In x (r :: rest) ->
    bucket_of (time r) <= bucket_of (time x)
    <= bucket_of (time (List.last rest r)).
Proof.
  intros Hs x Hx. destruct (sorted_last_upper Hs Hx) as [Hlo Hhi].
  split; apply bucket_of_mono; assumption.
Qed.

(** Resampling two sorted frames, the second wholly in later buckets, one
    after the other. *)
Lemma resample_sorted_app a restS b restS' :
  StronglySorted by_time (a :: restS) ->
  StronglySorted by_time (b :: restS') ->
  bucket_of (time (List.last restS a)) < bucket_of (time b) ->
  filter complete
    (map (agg_bin ((a :: restS) ++ b :: restS'))
         (bins ((a :: restS) ++ b :: restS')))
  = filter complete (map (agg_bin (a :: restS)) (bins (a :: restS)))
    ++ filter complete (map (agg_bin (b :: restS')) (bins (b :: restS'))).
Proof.
  intros Hs Hs' Hsep.
  pose proof (sorted_buckets Hs) as HS.
  pose proof (sorted_buckets Hs') as HS'.
  set (S := a :: restS) in *. set (S' := b :: restS') in *.
  set (k0 := bucket_of (time a)) in *.
  set (k1 := bucket_of (time (List.last restS a))) in *.
  set (k0' := bucket_of (time b)) in *.
  set (k1' := bucket_of (time (List.last restS' b))) in *.
  assert (H01 : k0 <= k1) by (apply (HS a); left; reflexivity).
  assert (H01' : k0' <= k1') by (apply (HS' b); left; reflexivity).
  assert (Hbins : bins (S ++ S')
    = map (fun i => k0 + Z.of_nat i) (seq 0 (Z.to_nat (k1 - k0 + 1)))
      ++ map (fun i => (k1 + 1) + Z.of_nat i) (seq 0 (Z.to_nat (k0' - k1 - 1)))
      ++ map (fun i => k0' + Z.of_nat i) (seq 0 (Z.to_nat (k1' - k0' + 1)))).
  { unfold S at 1. rewrite <- app_comm_cons, bins_run.
    unfold S'. rewrite last_app_cons. fold k0 k1'.
    replace (Z.to_nat (k1' - k0 + 1))
      with (Z.to_nat (k1 - k0 + 1)
            + (Z.to_nat (k0' - k1 - 1) + Z.to_nat (k1' - k0' + 1)))%nat by lia.
    rewrite !run_app. f_equal. f_equal.
    - apply map_ext. intros i. lia.
    - apply map_ext. intros i. lia. }
  assert (HbS : bins S
    = map (fun i => k0 + Z.of_nat i) (seq 0 (Z.to_nat (k1 - k0 + 1))))
    by reflexivity.
  assert (HbS' : bins S'
    = map (fun i => k0' + Z.of_nat i) (seq 0 (Z.to_nat (k1' - k0' + 1))))
    by reflexivity.
  rewrite Hbins, HbS, HbS', !map_app, !filter_app.
  f_equal; [| rewrite <- (app_nil_l (filter complete (map (agg_bin S') _))); f_equal].
  - f_equal. apply map_ext_in. intros k Hk. apply in_run in Hk.
    apply agg_bin_group. rewrite filter_app.
    rewrite (@filter_bucket_outside S' k), app_nil_r; [reflexivity |].
    intros y Hy E. specialize (HS' y Hy). lia.
  - apply filter_nil_iff. intros c Hc. apply in_map_iff in Hc.
    destruct Hc as (k & <- & Hk). apply in_run in Hk.
    apply agg_bin_no_rows. rewrite filter_app.
    rewrite (@filter_bucket_outside S k), (@filter_bucket_outside S' k);
      [reflexivity | |].
    + intros y Hy E. specialize (HS' y Hy). lia.
    + intros x Hx E. specialize (HS x Hx). lia.
  - f_equal. apply map_ext_in. intros k Hk. apply in_run in Hk.
    apply agg_bin_group. rewrite filter_app.
    rewrite (@filter_bucket_outside S k); [reflexivity |].
    intros x Hx E. specialize (HS x Hx). lia.
Qed.

End SeparatedFacts.

Section LaterRows.

Lemma ohlc_data_app (df df' : DataFrame) :
  (forall x y, In x df -> In y df' -> bucket_of (time x) < bucket_of (time y)) ->
  ohlc_data (df ++ df') = ohlc_data df ++ ohlc_data df'.
Proof.
  intros Hsep.
  assert (Htime : forall x y, In x df -> In y df' -> time x <= time y).
  { intros x y Hx Hy. specialize (Hsep x y Hx Hy).
    destruct (Z.le_gt_cases (time x) (time y)) as [Hle | Hgt]; [exact Hle |].
    assert (Hyx : time y <= time x) by lia.
    pose proof (bucket_of_mono Hyx). lia. }
  unfold ohlc_data, dropna, resample_agg.
  rewrite (sort_by_time_app _ _ Htime).
  pose proof (sort_by_time_sorted df) as Hs.
  pose proof (sort_by_time_sorted df') as Hs'.
  assert (HinS : forall x, In x (sort_by_time df) -> In x df)
    by (intros x Hx; apply sort_by_time_In; exact Hx).
  assert (HinS' : forall x, In x (sort_by_time df') -> In x df')
    by (intros x Hx; apply sort_by_time_In; exact Hx).
  destruct (sort_by_time df) as [| a restS].
  - reflexivity.
  - destruct (sort_by_time df') as [| b restS'].
    + rewrite app_nil_r. simpl. rewrite app_nil_r. reflexivity.
    + apply resample_sorted_app; try assumption.
      apply Hsep.
      * apply HinS. rewrite <- (last_cons_default restS a a).
        apply last_in. discriminate.
      * apply HinS'. left. reflexivity.
Qed.

End LaterRows.

(** X13. Resampling a frame followed by a frame whose rows all fall in
    later buckets gives the candles of the first followed by the candles
    of the second: rows in new buckets add candles at the end and leave
    the earlier candles, and their VWAP entries, as they were. *)
Theorem resample_of_later_rows (df df' : DataFrame) :
  (forall x y, In x df -> In y df' -> bucket_of (time x) < bucket_of (time y)) ->
  ohlc_data (df ++ df') = ohlc_data df ++ ohlc_data df'
  /\ firstn (List.length (ohlc_data df)) (VWAP (ohlc_data (df ++ df')))
     = VWAP (ohlc_data df).
Proof.
  intros Hsep. pose proof (ohlc_data_app df df' Hsep) as Happ.
  split; [exact Happ |].
  rewrite <- VWAP_firstn, Happ, firstn_app, Nat.sub_diag, firstn_all.
  simpl. rewrite app_nil_r. reflexivity.
Qed.

Lemma resample_of_later_rows_witness :
  ohlc_data (three_prices ++ [tick 46000000000 5 1])
  = ohlc_data three_prices ++ ohlc_data [tick 46000000000 5 1].
Proof.
  apply (@resample_of_later_rows three_prices [tick 46000000000 5 1]).
  intros x y Hx [<- | []]. unfold three_prices in Hx.
  destruct Hx as [<- | [<- | [<- | []]]]; reflexivity.
Defined.
